(** * QUISQUEYA quiz: the engine, the question bank and the score store

    A shallow embedding of the non-graphical classes of
    [QUISQUEYA_QUIZ_SYSTEME.py] -- [Question], [ReponseQuestion],
    [Stockage], [BanqueQuestions] and [MoteurQuiz] -- followed by the
    properties proved about them.

    Conventions of the embedding:
    - a Python [int] is a [Z]; a Python [float] is a primitive binary64
      [float]; a Python [str] is a [string], one [ascii] per character
      (so characters are the code points below 256, compared by code);
    - [Optional[T]] is [option T];
    - an object with mutable attributes is a record threaded through the
      methods (each method returns the new object state);
    - a method that can raise returns a [Resultat], the raised exception
      or the returned value;
    - what the code reads from its environment (the clock, the random
      generator, the file system and its failures) is an explicit
      argument. *)

From Stdlib Require Import ZArith QArith Lia Lqa Bool.
From Stdlib Require Import Strings.String Strings.Ascii.
From Stdlib Require Import Structures.OrdersEx.
From Stdlib Require Import Floats.PrimFloat Floats.SpecFloat Floats.FloatOps.
From Stdlib Require Import Numbers.Cyclic.Int63.Uint63.
From stdpp Require Import base option list sorting gmap strings pretty.

Set Warnings "-register-all".

Local Open Scope string_scope.
Local Open Scope list_scope.
Local Open Scope Z_scope.

(* ===================================================================== *)
(** ** Python values used by the program *)
(* ===================================================================== *)

Module Py.

(** The exceptions that the modelled code can meet. In Python 3
    [IOError] is [OSError]. *)
Inductive Exception :=
  | IOError | JSONDecodeError | ValueError | TypeError | KeyError
  | OverflowError | AttributeError | IndexError.

(** Outcome of a call: a value, or a raised exception. *)
Inductive Resultat (A : Type) :=
  | Retour (a : A)
  | Leve (e : Exception).
Arguments Retour {A} a.
Arguments Leve {A} e.

Definition lier {A B} (r : Resultat A) (k : A -> Resultat B) : Resultat B :=
  match r with
  | Retour a => k a
  | Leve e => Leve e
  end.

Notation "'soit' x '<-' r 'dans' k" := (lier r (fun x => k))
  (at level 10, x name, r at level 100, k at level 200).

(** [float(n)] for a non-negative machine-sized [n], with the sign put
    back; exact below [2^53]. *)
Definition flottant_de_Z (n : Z) : float :=
  let v := PrimFloat.of_uint63 (Uint63.of_Z (Z.abs n)) in
  if n <? 0 then PrimFloat.opp v else v.

(** [a / b] on two [int]s (true division). For operands below [2^53]
    in absolute value the correctly rounded quotient is the quotient of
    the two conversions. The caller guards [b = 0]. *)
Definition division_vraie (a b : Z) : float :=
  PrimFloat.div (flottant_de_Z a) (flottant_de_Z b).

(** The integer nearest to [num / den] ([den > 0]), ties to even. *)
Definition quotient_pair (num den : Z) : Z :=
  let q := num / den in
  let r := num mod den in
  match 2 * r ?= den with
  | Lt => q
  | Gt => q + 1
  | Eq => if Z.even q then q else q + 1
  end.

(** [round(x, 1)]: CPython rounds the exact value of [x] to one decimal
    (ties to even) and reads the decimal back as the nearest float.
    A float with a non-negative exponent is an integer and is returned
    as it is, as are zeros, infinities and NaN. The tenths [n] are
    converted exactly below [2^53], and the correctly rounded division
    [n / 10] is the nearest float to the decimal. *)
Definition round1 (x : float) : float :=
  match Prim2SF x with
  | S754_finite s m e =>
      if 0 <=? e then x
      else
        let n := quotient_pair (10 * Z.pos m) (2 ^ (- e)) in
        let v := PrimFloat.div (flottant_de_Z n) (flottant_de_Z 10) in
        if s then PrimFloat.opp v else v
  | _ => x
  end.

(** [int(x)] on a float: truncation toward zero; [ValueError] on NaN and
    [OverflowError] on an infinity. *)
Definition int_de_flottant (x : float) : Resultat Z :=
  match Prim2SF x with
  | S754_zero _ => Retour 0
  | S754_nan => Leve ValueError
  | S754_infinity _ => Leve OverflowError
  | S754_finite s m e =>
      let v := if 0 <=? e then Z.pos m * 2 ^ e else Z.pos m / 2 ^ (- e) in
      Retour (if s then - v else v)
  end.

(** [l[:n]] *)
Definition tranche {A} (l : list A) (n : Z) : list A :=
  if 0 <=? n then take (Z.to_nat n) l
  else take (length l - Z.to_nat (- n)) l.

(** [s.lower()] on the characters below 256: the capital letters [A-Z]
    and the accented capitals (except the multiplication sign) move up by
    32; every other character stays. *)
Definition minuscule (c : ascii) : ascii :=
  let n := N_of_ascii c in
  if ((65 <=? n) && (n <=? 90) || (192 <=? n) && (n <=? 214)
      || (216 <=? n) && (n <=? 222))%N
  then ascii_of_N (n + 32) else c.

Fixpoint lower (s : string) : string :=
  match s with
  | EmptyString => EmptyString
  | String c s' => String (minuscule c) (lower s')
  end.

(** The characters that [s.strip()] removes, below 256. *)
Definition est_espace (c : ascii) : bool :=
  let n := N_of_ascii c in
  ((9 <=? n) && (n <=? 13) || (28 <=? n) && (n <=? 32)
   || (n =? 133) || (n =? 160))%N.

Fixpoint lstrip (s : string) : string :=
  match s with
  | EmptyString => EmptyString
  | String c s' => if est_espace c then lstrip s' else s
  end.

Fixpoint rstrip (s : string) : string :=
  match s with
  | EmptyString => EmptyString
  | String c s' =>
      match rstrip s' with
      | EmptyString => if est_espace c then EmptyString else String c EmptyString
      | r => String c r
      end
  end.

(** [s.strip()] *)
Definition strip (s : string) : string := rstrip (lstrip s).

(** [a <= b] on two [str]. *)
Definition str_le (a b : string) : Prop := String_as_OT.compare a b <> Gt.

#[global] Instance str_le_dec : RelDecision str_le.
Proof. intros a b. unfold str_le. apply _. Defined.

(** [sorted(l)] on a list of [str]. The order is total and two texts
    that compare equal are the same text, so the sorted list does not
    depend on the sorting method. *)
Definition sorted (l : list string) : list string := merge_sort str_le l.

(** [s[:n]] on a [str]. *)
Definition debut (s : string) (n : Z) : string :=
  string_of_list_ascii (tranche (list_ascii_of_string s) n).

(** [sum(l)] on [int]s. *)
Definition sum (l : list Z) : Z := foldl Z.add 0 l.

End Py.

Import Py.

(* ===================================================================== *)
(** ** Decoded JSON *)
(* ===================================================================== *)

(** What [json.load] returns: [None], [bool], [int], [float], [str],
    [list], [dict]. A [dict] is kept as its items in insertion order;
    a key is looked up at its first occurrence. *)
Inductive JSON :=
  | JNull
  | JBool (b : bool)
  | JInt (n : Z)
  | JFloat (x : float)
  | JStr (s : string)
  | JList (l : list JSON)
  | JDict (d : list (string * JSON)).

(* ===================================================================== *)
(** ** Data model *)
(* ===================================================================== *)

(** [@dataclass Question]. The annotations are not enforced by Python:
    [options] holds whatever [list(element["options"])] produced. *)
Record Question := {
  id : Z;
  theme : string;
  niveau : string;
  texte : string;
  options : list JSON;
  bonne_option : Z
}.

(** [Question.est_reponse_correcte] *)
Definition est_reponse_correcte (q : Question) (index : Z) : bool :=
  index =? bonne_option q.

(** [@dataclass ReponseQuestion] *)
Record ReponseQuestion := {
  numero : Z;
  question : Question;
  reponse_choisie : option Z;
  est_correcte : bool;
  temps_ecoule : bool;
  temps_reponse : float
}.

(* ===================================================================== *)
(** ** The quiz engine, [MoteurQuiz] *)
(* ===================================================================== *)

Module Moteur.

(** The attributes of a [MoteurQuiz] object. *)
Record Etat := {
  questions : list Question;
  nom_joueur : string;
  index_question_actuelle : Z;
  score : Z;
  bonnes : Z;
  mauvaises : Z;
  temps_ecoules : Z;
  historique_reponses : list ReponseQuestion;
  horodatage_debut : float;
  horodatage_fin : option float
}.

(** [MoteurQuiz.__init__]; [maintenant] is the reading of [time.time()]. *)
Definition init (qs : list Question) (nom : string) (maintenant : float) : Etat :=
  {| questions := qs;
     nom_joueur := nom;
     index_question_actuelle := 0;
     score := 0;
     bonnes := 0;
     mauvaises := 0;
     temps_ecoules := 0;
     historique_reponses := [];
     horodatage_debut := maintenant;
     horodatage_fin := None |}.

Definition len {A} (l : list A) : Z := Z.of_nat (length l).

Definition obtenir_question_actuelle (s : Etat) : option Question :=
  if (0 <=? index_question_actuelle s)
     && (index_question_actuelle s <? len (questions s))
  then questions s !! Z.to_nat (index_question_actuelle s)
  else None.

Definition obtenir_numero_question (s : Etat) : Z :=
  index_question_actuelle s + 1.

Definition obtenir_total_questions (s : Etat) : Z := len (questions s).

Definition est_termine (s : Etat) : bool :=
  len (questions s) <=? index_question_actuelle s.

Definition enregistrer_reponse (s : Etat) (index_reponse : option Z)
    (temps_ecoule : bool) (temps_reponse : float) : Etat :=
  match obtenir_question_actuelle s with
  | None => s
  | Some question =>
      let est_correcte :=
        match index_reponse with
        | Some i => if negb temps_ecoule then est_reponse_correcte question i else false
        | None => false
        end in
      let reponse :=
        {| numero := obtenir_numero_question s;
           question := question;
           reponse_choisie := index_reponse;
           est_correcte := est_correcte;
           temps_ecoule := temps_ecoule;
           temps_reponse := temps_reponse |} in
      {| questions := questions s;
         nom_joueur := nom_joueur s;
         index_question_actuelle := index_question_actuelle s + 1;
         score := if est_correcte then score s + 1 else score s;
         bonnes := if est_correcte then bonnes s + 1 else bonnes s;
         mauvaises := if est_correcte then mauvaises s else mauvaises s + 1;
         temps_ecoules :=
           if est_correcte then temps_ecoules s
           else if temps_ecoule then temps_ecoules s + 1 else temps_ecoules s;
         historique_reponses := historique_reponses s ++ [reponse];
         horodatage_debut := horodatage_debut s;
         horodatage_fin := horodatage_fin s |}
  end.

(** The dictionary returned by [obtenir_resultats], one field per key. *)
Record Resultats := {
  id_partie : string;
  joueur_nom : string;
  date_heure : string;
  r_theme : string;
  r_niveau : string;
  nombre_questions : Z;
  r_bonnes : Z;
  r_mauvaises : Z;
  r_temps_ecoules : Z;
  score_total : Z;
  pourcentage : float;
  duree_seconds : Z
}.

(** What [obtenir_resultats] reads from the clock: the two readings of
    [time.time()] and [datetime.now(timezone.utc).isoformat()]. *)
Record Horloge := {
  temps_fin : float;
  temps_id : float;
  maintenant_utc : string
}.

(** [int(x)] of a clock reading; the clock is finite, so the exceptions
    of [int] do not arise there. *)
Definition secondes (x : float) : Z :=
  match int_de_flottant x with
  | Retour z => z
  | Leve _ => 0
  end.

(** [len(set(f(q) for q in qs))] *)
Definition nombre_valeurs (f : Question -> string) (qs : list Question) : nat :=
  size (list_to_set (f <$> qs) : gset string).

(** [qs[0].f if len(set(q.f for q in qs)) == 1 else "mix"]. The test
    is evaluated first, and [qs[0]] exists whenever it holds. *)
Definition valeur_commune (f : Question -> string) (qs : list Question) : string :=
  if Nat.eqb (nombre_valeurs f qs) 1
  then match qs with
       | q :: _ => f q
       | [] => "mix"
       end
  else "mix".

Definition calcul_pourcentage (bonnes total : Z) : float :=
  if 0 <? total
  then round1 (PrimFloat.mul (division_vraie bonnes total) (flottant_de_Z 100))
  else PrimFloat.zero.

Definition obtenir_resultats (s : Etat) (h : Horloge) : Resultats * Etat :=
  let fin := temps_fin h in
  let duree := secondes (PrimFloat.sub fin (horodatage_debut s)) in
  let total := len (questions s) in
  let pourcentage := calcul_pourcentage (bonnes s) total in
  ({| id_partie := nom_joueur s +:+ "_" +:+ pretty (secondes (temps_id h));
      joueur_nom := nom_joueur s;
      date_heure := maintenant_utc h;
      r_theme := valeur_commune theme (questions s);
      r_niveau := valeur_commune niveau (questions s);
      nombre_questions := total;
      r_bonnes := bonnes s;
      r_mauvaises := mauvaises s;
      r_temps_ecoules := temps_ecoules s;
      score_total := score s;
      pourcentage := pourcentage;
      duree_seconds := duree |},
   {| questions := questions s;
      nom_joueur := nom_joueur s;
      index_question_actuelle := index_question_actuelle s;
      score := score s;
      bonnes := bonnes s;
      mauvaises := mauvaises s;
      temps_ecoules := temps_ecoules s;
      historique_reponses := historique_reponses s;
      horodatage_debut := horodatage_debut s;
      horodatage_fin := Some fin |}).

(** One answer as the presentation layer submits it. *)
Record Soumission := {
  s_index : option Z;
  s_temps_ecoule : bool;
  s_temps : float
}.

Definition soumettre (s : Etat) (r : Soumission) : Etat :=
  enregistrer_reponse s (s_index r) (s_temps_ecoule r) (s_temps r).

(** A session driven by successive calls of [enregistrer_reponse]. *)
Definition jouer (s : Etat) (rs : list Soumission) : Etat :=
  foldl soumettre s rs.

(** *** Notions used in the statements *)

(** The verdict that [enregistrer_reponse] computes. *)
Definition verdict (q : Question) (index_reponse : option Z) (temps_ecoule : bool) : bool :=
  match index_reponse with
  | Some i => negb temps_ecoule && (i =? bonne_option q)
  | None => false
  end.

(** What every reachable engine satisfies. *)
Record coherent (s : Etat) : Prop := {
  coh_indice : 0 <= index_question_actuelle s <= len (questions s);
  coh_historique : len (historique_reponses s) = index_question_actuelle s;
  coh_total : bonnes s + mauvaises s = index_question_actuelle s;
  coh_score : score s = bonnes s;
  coh_ecoules : 0 <= temps_ecoules s <= mauvaises s
}.

End Moteur.

(* ===================================================================== *)
(** ** The texts of an answer, [ReponseQuestion] *)
(* ===================================================================== *)

Module Reponse.

(** What the two methods return: one of the fixed texts, or an item of
    the options. *)
Inductive Texte :=
  | TempsEcoule        (* " Temps ecoule - Aucune reponse" *)
  | AucuneReponse      (* " Aucune reponse" *)
  | ReponseInvalide    (* the warning sign and "Reponse invalide" *)
  | Inconnue           (* "Inconnue" *)
  | Choix (v : JSON).

(** [options[i]] for an index already checked to be within the list. *)
Definition item (l : list JSON) (i : Z) (hors : Texte) : Texte :=
  match l !! Z.to_nat i with
  | Some v => Choix v
  | None => hors
  end.

(** [obtenir_texte_reponse] *)
Definition obtenir_texte_reponse (r : ReponseQuestion) : Texte :=
  if temps_ecoule r then TempsEcoule
  else
    match reponse_choisie r with
    | None => AucuneReponse
    | Some i =>
        if (0 <=? i) && (i <? Z.of_nat (length (options (question r))))
        then item (options (question r)) i ReponseInvalide
        else ReponseInvalide
    end.

(** [obtenir_texte_bonne_reponse] *)
Definition obtenir_texte_bonne_reponse (r : ReponseQuestion) : Texte :=
  let q := question r in
  if (0 <=? bonne_option q) && (bonne_option q <? Z.of_nat (length (options q)))
  then item (options q) (bonne_option q) Inconnue
  else Inconnue.

End Reponse.

(* ===================================================================== *)
(** ** The numbers of the results chart, [GraphiqueWidget] *)
(* ===================================================================== *)

Module Graphique.

Inductive Categorie := Bonnes | Mauvaises | TempsEcoules.

(** One sector of the pie: its label (the category and the number shown
    in it), its size and its colour. *)
Record Secteur := {
  etiquette : Categorie * Z;
  taille : Z;
  couleur : string
}.

(** The part of [afficher_graphique_resultats] that computes what is
    drawn: the sectors given to [pie] and the three values given to
    [barh]. The dictionary is the one [obtenir_resultats] returns. *)
Definition donnees_graphique (r : Moteur.Resultats) : list Secteur * list Z :=
  let bonnes := Moteur.r_bonnes r in
  let mauvaises := Moteur.r_mauvaises r - Moteur.r_temps_ecoules r in
  let temps_ecoules := Moteur.r_temps_ecoules r in
  let secteurs :=
    (if 0 <? bonnes
     then [{| etiquette := (Bonnes, bonnes); taille := bonnes; couleur := "#27AE60" |}]
     else []) ++
    (if 0 <? mauvaises
     then [{| etiquette := (Mauvaises, mauvaises); taille := mauvaises;
              couleur := "#E74C3C" |}]
     else []) ++
    (if 0 <? temps_ecoules
     then [{| etiquette := (TempsEcoules, temps_ecoules); taille := temps_ecoules;
              couleur := "#F39C12" |}]
     else []) in
  (secteurs, [bonnes; mauvaises; temps_ecoules]).

End Graphique.

(* ===================================================================== *)
(** ** The [random] module *)
(* ===================================================================== *)

Module Random.

(** The generator is the sequence of raw draws it will produce; once the
    sequence is used up every draw is [0]. [randbelow n] answers a number
    below [n] and consumes one draw, so every run of the real generator
    is the run of some sequence. *)
Definition Generateur := list nat.

Definition randbelow (n : nat) (g : Generateur) : nat * Generateur :=
  match g with
  | [] => (0%nat, [])
  | x :: g' => (x mod n, g')%nat
  end.

(** [x[i], x[j] = x[j], x[i]]; outside the list Python raises, which
    [shuffle] never meets. *)
Definition echanger {A} (x : list A) (i j : nat) : list A :=
  match x !! i, x !! j with
  | Some a, Some b => <[j := a]> (<[i := b]> x)
  | _, _ => x
  end.

(** The loop of [random.shuffle]:
    [for i in reversed(range(1, len(x))): j = randbelow(i + 1); swap]. *)
Fixpoint shuffle_boucle {A} (i : nat) (x : list A) (g : Generateur)
    : list A * Generateur :=
  match i with
  | O => (x, g)
  | S i' =>
      let '(j, g') := randbelow (S i) g in
      shuffle_boucle i' (echanger x i j) g'
  end.

(** [random.shuffle(x)]: the new content of the list object [x]. *)
Definition shuffle {A} (x : list A) (g : Generateur) : list A * Generateur :=
  shuffle_boucle (length x - 1) x g.

(** The loop of [random.sample] over its private copy [pool]:
    [j = randbelow(n - i); result[i] = pool[j]; pool[j] = pool[n - i - 1]]. *)
Fixpoint sample_boucle {A} (k n : nat) (pool : list A) (g : Generateur)
    : Resultat (list A * Generateur) :=
  match k with
  | O => Retour ([], g)
  | S k' =>
      let '(j, g') := randbelow n g in
      match pool !! j, pool !! (n - 1)%nat with
      | Some a, Some d =>
          soit r <- sample_boucle k' (n - 1) (<[j := d]> pool) g' dans
          Retour (a :: r.1, r.2)
      | _, _ => Leve IndexError
      end
  end.

(** [random.sample(population, k)]: [ValueError] unless
    [0 <= k <= len(population)]; the selection is made on a copy, the
    population is not modified. (For large populations CPython draws
    positions with a rejection loop instead; the contract is the same.) *)
Definition sample {A} (population : list A) (k : Z) (g : Generateur)
    : Resultat (list A * Generateur) :=
  if (0 <=? k) && (k <=? Z.of_nat (length population))
  then sample_boucle (Z.to_nat k) (length population) population g
  else Leve ValueError.

End Random.

(* ===================================================================== *)
(** ** The question bank, [BanqueQuestions] *)
(* ===================================================================== *)

Module Banque.

Definition NOMBRE_QUESTIONS_MAX : Z := 10.

(** *** Loading *)

(** A line printed on the standard output. *)
Inductive Message :=
  | PasUneListe (chemin : string)
  | ErreurQuestion (ident : option JSON) (e : Exception)
  | LectureImpossible (chemin : string) (e : Exception).

(** What loading builds: the list [self.questions] and the printed lines. *)
Record Chargement := {
  charge : list Question;
  journal : list Message
}.

Definition vide : Chargement := {| charge := []; journal := [] |}.

(** What [open] and [json.load] give for one file: an exception, or the
    decoded value. *)
Inductive Lecture :=
  | Echec (e : Exception)
  | Decode (donnees : JSON).

Definition recherche (k : string) (d : list (string * JSON)) : option JSON :=
  snd <$> List.find (fun kv => String.eqb k kv.1) d.

(** [k in element]: key of a dict, item of a list, substring of a str;
    [TypeError] on the values that are not containers. *)
Definition contient (k : string) (element : JSON) : Resultat bool :=
  match element with
  | JDict d => Retour (bool_decide (is_Some (recherche k d)))
  | JList l =>
      Retour (existsb (fun v => match v with
                                | JStr s => String.eqb k s
                                | _ => false
                                end) l)
  | JStr s => Retour (bool_decide (is_Some (String.index 0 k s)))
  | _ => Leve TypeError
  end.

(** [all(k in element for k in ks)], stopping at the first absent key. *)
Fixpoint toutes_presentes (ks : list string) (element : JSON) : Resultat bool :=
  match ks with
  | [] => Retour true
  | k :: ks' =>
      soit b <- contient k element dans
      if b then toutes_presentes ks' element else Retour false
  end.

Definition cles : list string :=
  ["id"; "theme"; "niveau"; "texte"; "options"; "bonne_option"].

(** [element[k]] with a [str] key. *)
Definition indexer (element : JSON) (k : string) : Resultat JSON :=
  match element with
  | JDict d =>
      match recherche k d with
      | Some v => Retour v
      | None => Leve KeyError
      end
  | _ => Leve TypeError
  end.

(** [element.get(k)]: only a dict has the method. *)
Definition get (element : JSON) (k : string) : Resultat (option JSON) :=
  match element with
  | JDict d => Retour (recherche k d)
  | _ => Leve AttributeError
  end.

(** [list(v)] *)
Definition py_list (v : JSON) : Resultat (list JSON) :=
  match v with
  | JList l => Retour l
  | JStr s => Retour ((fun c => JStr (String c EmptyString)) <$> list_ascii_of_string s)
  | JDict d => Retour ((fun kv => JStr kv.1) <$> d)
  | _ => Leve TypeError
  end.

(** *** The bank object and the list objects it shares *)

(** The list objects of the program, by address: a list that two names
    refer to is one entry, and a mutation through either name is seen
    through both. *)
Abbreviation Tas := (list (list Question)).

Definition lire (t : Tas) (a : nat) : list Question := default [] (t !! a).

(** A new list object. *)
Definition allouer (l : list Question) (t : Tas) : nat * Tas :=
  (length t, t ++ [l]).

(** A [BanqueQuestions] object; [questions] is the address of the list
    that the attribute refers to. *)
Record Objet := {
  questions : nat;
  dossier : string
}.

(** *** Notions used in the statements about loading *)

(** The invariant of the data model: the index of the correct option
    points into the options. *)
Definition question_valide (q : Question) : Prop :=
  0 <= bonne_option q < Z.of_nat (length (options q)).

(** A record that is a JSON object, and whose ["id"] and ["bonne_option"],
    when they are floats, are not infinite. *)
Definition enregistrement (element : JSON) : Prop :=
  match element with
  | JDict d =>
      forall k x, k = "id" \/ k = "bonne_option" ->
        recherche k d = Some (JFloat x) -> PrimFloat.is_infinity x = false
  | _ => False
  end.

Section Conversions.

(** Two built-in conversions are left open: the text [str] gives for a
    value that is not already a [str], and the reading of a [str] by
    [int] ([None] when [int] raises [ValueError]). *)
Variable repr : JSON -> string.
Variable int_de_chaine : string -> option Z.

(** [str(v)] *)
Definition py_str (v : JSON) : string :=
  match v with
  | JStr s => s
  | _ => repr v
  end.

(** [int(v)] *)
Definition py_int (v : JSON) : Resultat Z :=
  match v with
  | JInt n => Retour n
  | JBool b => Retour (if b then 1 else 0)
  | JFloat x => int_de_flottant x
  | JStr s =>
      match int_de_chaine s with
      | Some n => Retour n
      | None => Leve ValueError
      end
  | _ => Leve TypeError
  end.

(** The call [Question(id=int(element["id"]), ...)], its arguments
    evaluated from left to right. *)
Definition construire (element : JSON) : Resultat Question :=
  soit v1 <- indexer element "id" dans
  soit a1 <- py_int v1 dans
  soit v2 <- indexer element "theme" dans
  soit v3 <- indexer element "niveau" dans
  soit v4 <- indexer element "texte" dans
  soit v5 <- indexer element "options" dans
  soit a5 <- py_list v5 dans
  soit v6 <- indexer element "bonne_option" dans
  soit a6 <- py_int v6 dans
  Retour {| id := a1; theme := py_str v2; niveau := py_str v3;
            texte := py_str v4; options := a5; bonne_option := a6 |}.

(** [except (ValueError, TypeError, KeyError)] *)
Definition attrape_question (e : Exception) : bool :=
  match e with
  | ValueError | TypeError | KeyError => true
  | _ => false
  end.

(** [except (IOError, json.JSONDecodeError)] *)
Definition attrape_fichier (e : Exception) : bool :=
  match e with
  | IOError | JSONDecodeError => true
  | _ => false
  end.

(** The body of [for element in donnees]. *)
Definition charger_element (element : JSON) (c : Chargement) : Resultat Chargement :=
  soit presentes <- toutes_presentes cles element dans
  if negb presentes then Retour c
  else
    match construire element with
    | Retour q =>
        if (0 <=? bonne_option q) && (bonne_option q <? Z.of_nat (length (options q)))
        then Retour {| charge := charge c ++ [q]; journal := journal c |}
        else Retour c
    | Leve e =>
        if attrape_question e
        then
          soit ident <- get element "id" dans
          Retour {| charge := charge c;
                    journal := journal c ++ [ErreurQuestion ident e] |}
        else Leve e
    end.

(** The loop; an exception leaves it with what was loaded so far. *)
Fixpoint charger_elements (donnees : list JSON) (c : Chargement)
    : Chargement * option Exception :=
  match donnees with
  | [] => (c, None)
  | element :: reste =>
      match charger_element element c with
      | Retour c' => charger_elements reste c'
      | Leve e => (c, Some e)
      end
  end.

Definition avertir (m : Message) (c : Chargement) : Chargement :=
  {| charge := charge c; journal := journal c ++ [m] |}.

(** [_charger_fichier]: the state after the call and the exception that
    leaves it, if any. *)
Definition _charger_fichier (chemin : string) (lu : Lecture) (c : Chargement)
    : Chargement * option Exception :=
  match lu with
  | Echec e =>
      if attrape_fichier e then (avertir (LectureImpossible chemin e) c, None)
      else (c, Some e)
  | Decode (JList donnees) =>
      match charger_elements donnees c with
      | (c', Some e) =>
          if attrape_fichier e then (avertir (LectureImpossible chemin e) c', None)
          else (c', Some e)
      | r => r
      end
  | Decode _ => (avertir (PasUneListe chemin) c, None)
  end.

(** What [_charger_questions] finds: the sorted [*.json] files of the
    directory, else the single [questions.json], else nothing. *)
Inductive Sources :=
  | Dossier (fichiers : list (string * Lecture))
  | FichierUnique (lu : Lecture)
  | Aucune.

Fixpoint charger_fichiers (fichiers : list (string * Lecture)) (c : Chargement)
    : Chargement * option Exception :=
  match fichiers with
  | [] => (c, None)
  | (chemin, lu) :: reste =>
      match _charger_fichier chemin lu c with
      | (c', None) => charger_fichiers reste c'
      | r => r
      end
  end.

Definition _charger_questions (src : Sources) (c : Chargement)
    : Chargement * option Exception :=
  match src with
  | Dossier fichiers => charger_fichiers fichiers c
  | FichierUnique lu => _charger_fichier "questions.json" lu c
  | Aucune => (c, None)
  end.

(** [BanqueQuestions.__init__]: an exception that leaves the loading
    leaves the constructor, and no object is built. *)
Definition init (dossier : string) (src : Sources) (t : Tas)
    : Resultat (Objet * Tas) * list Message :=
  match _charger_questions src vide with
  | (c, None) =>
      let '(a, t') := allouer (charge c) t in
      (Retour ({| questions := a; dossier := dossier |}, t'), journal c)
  | (c, Some e) => (Leve e, journal c)
  end.

(** What a record contributes to the bank: the question built from it,
    when it can be built and its index is in range. *)
Definition question_de (element : JSON) : option Question :=
  match toutes_presentes cles element, construire element with
  | Retour true, Retour q =>
      if (0 <=? bonne_option q) && (bonne_option q <? Z.of_nat (length (options q)))
      then Some q else None
  | _, _ => None
  end.

(** What a record contributes to the printed lines: a warning, when all
    the keys are there and a conversion raises one of the three
    exceptions that are caught. *)
Definition avertissement_de (element : JSON) : option Message :=
  match element, toutes_presentes cles element, construire element with
  | JDict d, Retour true, Leve e =>
      if attrape_question e then Some (ErreurQuestion (recherche "id" d) e) else None
  | _, _, _ => None
  end.

(** A file that loading gets through: one that cannot be read or
    decoded, one that does not hold a list, or a list whose elements all
    are records in the sense of [enregistrement]: JSON objects with no
    infinite number as ["id"] or ["bonne_option"]. *)
Definition fichier_traitable (lu : Lecture) : Prop :=
  match lu with
  | Echec e => attrape_fichier e = true
  | Decode (JList donnees) => Forall enregistrement donnees
  | Decode _ => True
  end.

(** What such a file contributes to the bank and to the printed lines. *)
Definition questions_du_fichier (lu : Lecture) : list Question :=
  match lu with
  | Decode (JList donnees) => omap question_de donnees
  | _ => []
  end.

Definition journal_du_fichier (chemin : string) (lu : Lecture) : list Message :=
  match lu with
  | Echec e => [LectureImpossible chemin e]
  | Decode (JList donnees) => omap avertissement_de donnees
  | Decode _ => [PasUneListe chemin]
  end.

End Conversions.

(** *** Filtering and sampling *)

(** [if themes:] holds for a list that is given and not empty. *)
Definition actif (filtre : option (list string)) : list string :=
  default [] filtre.

(** [filtrer]: the address of the list it returns, which is the bank's
    own list object when no filter is active, and a new one otherwise. *)
Definition filtrer (b : Objet) (themes niveaux : option (list string)) (t : Tas)
    : nat * Tas :=
  let resultat := questions b in
  let '(resultat, t) :=
    match actif themes with
    | [] => (resultat, t)
    | ths => allouer (filter (fun q => theme q ∈ ths) (lire t resultat)) t
    end in
  match actif niveaux with
  | [] => (resultat, t)
  | nivs => allouer (filter (fun q => niveau q ∈ nivs) (lire t resultat)) t
  end.

(** [echantillonner_questions]: the returned list (a new object in every
    branch) or the exception raised, with the list objects and the
    generator after the call. *)
Definition echantillonner_questions (b : Objet) (nombre : Z)
    (themes : option (list string)) (t : Tas) (g : Random.Generateur)
    : Resultat (list Question) * Tas * Random.Generateur :=
  let nombre := Z.min nombre NOMBRE_QUESTIONS_MAX in
  let '(reserve, t1) := filtrer b themes None t in
  match lire t1 reserve with
  | [] => (Retour [], t1, g)
  | contenu =>
      if Z.of_nat (length contenu) <=? nombre
      then
        let '(melange, g') := Random.shuffle contenu g in
        (Retour (tranche melange nombre), <[reserve := melange]> t1, g')
      else
        match Random.sample contenu nombre g with
        | Retour (r, g') => (Retour r, t1, g')
        | Leve e => (Leve e, t1, g)
        end
  end.

(** The questions that [filtrer(themes, niveaux=None)] selects. *)
Definition reserve_filtree (b : Objet) (themes : option (list string)) (t : Tas)
    : list Question :=
  match actif themes with
  | [] => lire t (questions b)
  | ths => filter (fun q => theme q ∈ ths) (lire t (questions b))
  end.

(** [lister_themes]: [sorted({q.theme for q in self.questions})] *)
Definition lister_themes (b : Objet) (t : Tas) : list string :=
  sorted (elements (list_to_set (theme <$> lire t (questions b)) : gset string)).

End Banque.

(* ===================================================================== *)
(** ** The score store, [Stockage] *)
(* ===================================================================== *)

Module Stockage.

(** One dictionary of the score log. The store reads five keys, each
    with [get], so each may be absent; the scores are numbers, compared
    by value; the other keys are carried along. *)
Record Entree := {
  e_joueur_nom : option string;
  e_theme : option string;
  e_score_total : option Z;
  e_pourcentage : option Q;
  e_date_heure : option string;
  e_autres : list (string * JSON)
}.

(** The content of a file: the JSON text of a list of entries, or a text
    that [json.load] rejects, such as the beginning of a JSON text. *)
Inductive Contenu :=
  | Valide (scores : list Entree)
  | Illisible.

Inductive Message :=
  | ErreurSauvegarde (e : Exception).

(** The files by path, and the lines printed. *)
Record Monde := {
  fichiers : gmap string Contenu;
  sortie : list Message
}.

(** [charger_tous]: a missing file ([IOError]) and a rejected text
    ([JSONDecodeError]) both give the empty list. *)
Definition charger_tous (chemin : string) (m : Monde) : list Entree :=
  match fichiers m !! chemin with
  | Some (Valide scores) => scores
  | Some Illisible => []
  | None => []
  end.

(** The point at which the file system fails during one call, if any:
    opening the temporary file, writing into it, or the final
    [os.replace]. *)
Inductive Panne :=
  | SansPanne
  | PanneOuverture
  | PanneEcriture
  | PanneRemplacement.

(** The body of the [try]: [open(temp, "w")], [json.dump], [os.replace].
    Opening creates or empties the temporary file; a failed write leaves
    the beginning of the text in it. *)
Definition ecrire_puis_remplacer (chemin temp : string) (tous : list Entree)
    (p : Panne) (f : gmap string Contenu) : Resultat () * gmap string Contenu :=
  match p with
  | PanneOuverture => (Leve IOError, f)
  | PanneEcriture => (Leve IOError, <[temp := Illisible]> f)
  | PanneRemplacement => (Leve IOError, <[temp := Valide tous]> f)
  | SansPanne =>
      (Retour (), <[chemin := Valide tous]> (delete temp (<[temp := Valide tous]> f)))
  end.

(** [sauvegarder_score]: what the caller receives, and the world after. *)
Definition sauvegarder_score (chemin : string) (entree : Entree) (p : Panne)
    (m : Monde) : Resultat () * Monde :=
  let tous_scores := charger_tous chemin m ++ [entree] in
  let temp := chemin +:+ ".tmp" in
  match ecrire_puis_remplacer chemin temp tous_scores p (fichiers m) with
  | (Retour _, f) => (Retour (), {| fichiers := f; sortie := sortie m |})
  | (Leve IOError, f) =>
      (Retour (), {| fichiers := f; sortie := sortie m ++ [ErreurSauvegarde IOError] |})
  | (Leve e, f) => (Leve e, {| fichiers := f; sortie := sortie m |})
  end.

(** [cle_tri]: [(-score_total, -pourcentage, date_heure)] with the
    defaults of [get]. *)
Definition cle_tri (s : Entree) : Z * Q * string :=
  (- default 0 (e_score_total s), Qopp (default 0%Q (e_pourcentage s)),
   default "" (e_date_heure s)).

(** [a < b] on two keys, as Python compares tuples: the first position
    where the items differ decides. *)
Definition cle_lt (a b : Z * Q * string) : bool :=
  let '(a1, a2, a3) := a in
  let '(b1, b2, b3) := b in
  if negb (a1 =? b1) then a1 <? b1
  else if negb (Qeq_bool a2 b2)
       then match Qcompare a2 b2 with Lt => true | _ => false end
       else match String_as_OT.compare a3 b3 with Lt => true | _ => false end.

(** [list.sort(key=cle_tri)] is stable and compares keys with [<] only;
    its result is that of the stable insertion below. *)
Fixpoint inserer (x : Entree) (l : list Entree) : list Entree :=
  match l with
  | [] => [x]
  | y :: l' =>
      if cle_lt (cle_tri y) (cle_tri x) then y :: inserer x l' else x :: y :: l'
  end.

Fixpoint trier (l : list Entree) : list Entree :=
  match l with
  | [] => []
  | x :: l' => inserer x (trier l')
  end.

(** [top_n]; [if theme:] holds for a theme that is given and not empty. *)
Definition top_n (chemin : string) (n : Z) (theme : option string) (m : Monde)
    : list Entree :=
  let tous_scores := charger_tous chemin m in
  let tous_scores :=
    match theme with
    | None | Some "" => tous_scores
    | Some th => filter (fun s => e_theme s = Some th) tous_scores
    end in
  tranche (trier tous_scores) n.

(** *** Notions used in the statements about the ranking *)

(** The three values that [cle_tri] reads. *)
Definition points (a : Entree) : Z := default 0 (e_score_total a).
Definition pourcent (a : Entree) : Q := default 0%Q (e_pourcentage a).
Definition date (a : Entree) : string := default "" (e_date_heure a).

(** Order of two timestamps, as texts. *)
Definition date_lt (s1 s2 : string) : Prop := String_as_OT.compare s1 s2 = Lt.
Definition date_le (s1 s2 : string) : Prop := String_as_OT.compare s1 s2 <> Gt.

(** [a] may stand before [b] in the ranking: a higher score, or the same
    score and a higher percentage, or the same of both and a timestamp
    that is not later. *)
Definition avant (a b : Entree) : Prop :=
  points b < points a \/
  (points a = points b /\
   ((pourcent b < pourcent a)%Q \/
    ((pourcent a == pourcent b)%Q /\ date_le (date a) (date b)))).

(** The entries that [top_n] ranks: all of the log, or those of the
    theme. *)
Definition selection (chemin : string) (theme : option string) (m : Monde)
    : list Entree :=
  match theme with
  | None | Some "" => charger_tous chemin m
  | Some th => filter (fun s => e_theme s = Some th) (charger_tous chemin m)
  end.

(** *** The other methods of the store *)

(** How the creation of the file goes: it succeeds, [open] fails, or the
    write fails after [open] has created the file. *)
Inductive Creation :=
  | CreationFaite
  | CreationRefusee
  | CreationInterrompue.

(** [_creer_fichier_vide]: the files after the call, and the [IOError]
    whose message is printed, if any. *)
Definition _creer_fichier_vide (chemin : string) (c : Creation)
    (f : gmap string Contenu) : gmap string Contenu * option Exception :=
  match c with
  | CreationFaite => (<[chemin := Valide []]> f, None)
  | CreationRefusee => (f, Some IOError)
  | CreationInterrompue => (<[chemin := Illisible]> f, Some IOError)
  end.

(** [Stockage.__init__]: [os.path.isfile] holds when the path is that
    of a file. *)
Definition init (chemin : string) (c : Creation) (f : gmap string Contenu)
    : gmap string Contenu * option Exception :=
  match f !! chemin with
  | Some _ => (f, None)
  | None => _creer_fichier_vide chemin c f
  end.

(** [obtenir_themes_depuis_scores] *)
Definition obtenir_themes_depuis_scores (chemin : string) (m : Monde) : list string :=
  let tous_scores := charger_tous chemin m in
  let themes : gset string :=
    list_to_set
      (omap (fun s => match e_theme s with
                      | Some "" | None => None
                      | Some th => Some th
                      end) tous_scores) in
  sorted (elements themes).

(** The test [s.get("joueur_nom", "").lower() == nom_joueur.lower()]. *)
Definition meme_joueur (nom_joueur : string) (s : Entree) : Prop :=
  lower (default "" (e_joueur_nom s)) = lower nom_joueur.

#[global] Instance meme_joueur_dec nom_joueur s : Decision (meme_joueur nom_joueur s).
Proof. unfold meme_joueur. apply _. Defined.

(** [compter_occurrences_joueur] *)
Definition compter_occurrences_joueur (chemin nom_joueur : string) (m : Monde) : Z :=
  let tous_scores := charger_tous chemin m in
  sum ((fun _ => 1) <$> filter (meme_joueur nom_joueur) tous_scores).

(** [max(l, key=lambda x: x.get("score_total", 0))] on a list that
    starts with [x]: the first item is kept until one with a strictly
    greater key is met. *)
Definition max_score (x : Entree) (l : list Entree) : Entree :=
  foldl (fun m y => if points m <? points y then y else m) x l.

(** The dictionary that [obtenir_stats_joueur] returns. *)
Inductive Stats :=
  | AucunePartie
  | Parties (parties : Z) (meilleur_score : Z) (meilleur_pourcentage : Q)
            (moyenne_pourcentage : Q).

(** Successive calls of [sauvegarder_score], each with the failure it
    meets, if any. *)
Definition sauvegarder_scores (chemin : string) (l : list (Entree * Panne))
    (m : Monde) : Monde :=
  foldl (fun m ep => (sauvegarder_score chemin ep.1 ep.2 m).2) m l.

Section Statistiques.

(** The mean percentage, [round(sum(...) / total_parties, 1)], is
    computed by Python on floats; its value for the percentages of the
    player is left open. *)
Variable moyenne_arrondie : list Q -> Q.

(** [obtenir_stats_joueur] *)
Definition obtenir_stats_joueur (chemin nom_joueur : string) (m : Monde) : Stats :=
  let tous_scores := charger_tous chemin m in
  match filter (meme_joueur nom_joueur) tous_scores with
  | [] => AucunePartie
  | x :: l =>
      let meilleur_score := max_score x l in
      Parties (Z.of_nat (length (x :: l))) (points meilleur_score)
              (pourcent meilleur_score)
              (moyenne_arrondie (pourcent <$> (x :: l)))
  end.

End Statistiques.

End Stockage.

(* ===================================================================== *)
(** ** The animated label, [TypewriterLabel] *)
(* ===================================================================== *)

Module Typewriter.

(** The attributes of the label that the animation reads and writes,
    with the text shown ([setText]) and the interval of its timer. *)
Record Etat := {
  textes : list string;
  index_texte_actuel : Z;
  texte_actuel : string;
  position_caractere : Z;
  est_en_ecriture : bool;
  est_en_pause : bool;
  vitesse_ecriture : Z;
  vitesse_effacement : Z;
  duree_pause : Z;
  texte_affiche : string;
  intervalle : Z
}.

(** [__init__], up to the start of the timer in [demarrer]. *)
Definition init (ts : list string) : Etat :=
  {| textes := ts; index_texte_actuel := 0; texte_actuel := "";
     position_caractere := 0; est_en_ecriture := true; est_en_pause := false;
     vitesse_ecriture := 80; vitesse_effacement := 40; duree_pause := 700;
     texte_affiche := ""; intervalle := 80 |}.

(** [l[i]] for an index that is not negative. *)
Definition element (l : list string) (i : Z) : Resultat string :=
  match l !! Z.to_nat i with
  | Some x => Retour x
  | None => Leve IndexError
  end.

Definition avec (s : Etat) (index position : Z) (ecriture pause : bool)
    (actuel affiche : string) (intervalle : Z) : Etat :=
  {| textes := textes s; index_texte_actuel := index; texte_actuel := actuel;
     position_caractere := position; est_en_ecriture := ecriture;
     est_en_pause := pause; vitesse_ecriture := vitesse_ecriture s;
     vitesse_effacement := vitesse_effacement s; duree_pause := duree_pause s;
     texte_affiche := affiche; intervalle := intervalle |}.

(** [_animer], one tick of the timer. *)
Definition _animer (s : Etat) : Resultat Etat :=
  if est_en_pause s
  then Retour (avec s (index_texte_actuel s) (position_caractere s) false false
                 (texte_actuel s) (texte_affiche s) (vitesse_effacement s))
  else
    soit texte_cible <- element (textes s) (index_texte_actuel s) dans
    if est_en_ecriture s
    then
      if position_caractere s <? Z.of_nat (String.length texte_cible)
      then
        let position := position_caractere s + 1 in
        let actuel := debut texte_cible position in
        Retour (avec s (index_texte_actuel s) position true false
                  actuel actuel (intervalle s))
      else
        Retour (avec s (index_texte_actuel s) (position_caractere s) true true
                  (texte_actuel s) (texte_affiche s) (duree_pause s))
    else
      if 0 <? position_caractere s
      then
        let position := position_caractere s - 1 in
        let actuel := debut texte_cible position in
        Retour (avec s (index_texte_actuel s) position false false
                  actuel actuel (intervalle s))
      else
        Retour (avec s ((index_texte_actuel s + 1) mod Z.of_nat (length (textes s)))
                  0 true false (texte_actuel s) (texte_affiche s)
                  (vitesse_ecriture s)).

(** [n] ticks in a row, stopping at the first exception. *)
Fixpoint ticks (n : nat) (s : Etat) : Resultat Etat :=
  match n with
  | O => Retour s
  | S n' => soit s' <- _animer s dans ticks n' s'
  end.

(** *** Notions used in the statements *)

(** What the animation keeps true: the index points at one of the
    texts, the position lies within that text, and the label shows the
    beginning of the text up to the position. *)
Definition coherent (ts : list string) (s : Etat) : Prop :=
  textes s = ts /\
  exists cible,
    ts !! Z.to_nat (index_texte_actuel s) = Some cible /\
    0 <= index_texte_actuel s < Z.of_nat (length ts) /\
    0 <= position_caractere s <= Z.of_nat (String.length cible) /\
    texte_actuel s = debut cible (position_caractere s) /\
    texte_affiche s = texte_actuel s.

(** The label is about to write the text number [i]: nothing is shown
    yet. *)
Definition au_debut (i : Z) (s : Etat) : Prop :=
  index_texte_actuel s = i /\ position_caractere s = 0 /\
  est_en_ecriture s = true /\ est_en_pause s = false /\
  texte_actuel s = "" /\ texte_affiche s = "".

End Typewriter.

(* ===================================================================== *)
(** ** The name of the player, in [FenetrePrincipale._menu_jouer] *)
(* ===================================================================== *)

Module Menu.

(** The name kept in [self.nom_joueur], from what the dialog returns:
    [if not ok or not nom.strip(): nom = "Joueur"], then [nom.strip()]. *)
Definition nom_joueur (nom : string) (ok : bool) : string :=
  let nom :=
    if negb ok || bool_decide (strip nom = "") then "Joueur" else nom in
  strip nom.

End Menu.

(* ===================================================================== *)
(** ** Concrete data *)
(* ===================================================================== *)

Section DonneesMoteur.

Import Moteur.

(** Three questions and the submissions used as concrete sessions. *)
Definition question_exemple (n bonne : Z) (t : string) : Question :=
  {| id := n; theme := t; niveau := "facile"; texte := "?";
     options := [JStr "a"; JStr "b"; JStr "c"]; bonne_option := bonne |}.

Definition soumission (i : option Z) (ecoule : bool) : Soumission :=
  {| s_index := i; s_temps_ecoule := ecoule; s_temps := 5 |}.

Definition session_exemple : Etat :=
  init [question_exemple 1 0 "Histoire"; question_exemple 2 2 "Histoire";
        question_exemple 3 1 "Histoire"] "Ana" 1000.

Definition horloge_exemple : Horloge :=
  {| temps_fin := 1060; temps_id := 1060;
     maintenant_utc := "2024-05-01T10:00:00+00:00" |}.

(** A session over two themes and two levels. *)
Definition session_melangee : Etat :=
  init [question_exemple 1 0 "Histoire";
        {| id := 2; theme := "Sport"; niveau := "difficile"; texte := "?";
           options := [JStr "a"; JStr "b"]; bonne_option := 1 |}] "Ana" 1000.

(** The binary64 number that Python writes [33.3]. *)
Definition trente_trois_virgule_trois : float := 0x1.0a66666666666p+5%float.

End DonneesMoteur.

Section DonneesBanque.

Import Banque.

(** A bank of four questions, its list object at address [0]. *)
Definition banque_exemple : Objet := {| questions := 0; dossier := "questions" |}.

Definition tas_exemple : Tas :=
  [[question_exemple 1 0 "Histoire"; question_exemple 2 2 "Sport";
    question_exemple 3 1 "Histoire"; question_exemple 4 0 "Musique"]].

(** A bank of eleven questions. *)
Definition tas_onze : Tas :=
  [(fun n => question_exemple (Z.of_nat n) 0 "Histoire") <$> seq 1 11].

(** The two conversions used in the concrete files below, whose records
    hold strings where [str] is applied and numbers where [int] is. *)
Definition repr_exemple (v : JSON) : string :=
  match v with
  | JNull => "None"
  | JBool true => "True"
  | JBool false => "False"
  | JInt n => pretty n
  | _ => ""
  end.

Definition int_exemple (s : string) : option Z :=
  match s with
  | "0" => Some 0
  | "1" => Some 1
  | "2" => Some 2
  | _ => None
  end.

Definition enregistrement_exemple (n : Z) (bonne : JSON) : JSON :=
  JDict [("id", JInt n); ("theme", JStr "Histoire"); ("niveau", JStr "facile");
         ("texte", JStr "?"); ("options", JList [JStr "a"; JStr "b"]);
         ("bonne_option", bonne)].

(** A good record, one without its keys, one out of range, one whose
    index is not a number, and a good one. *)
Definition fichier_exemple : list JSON :=
  [enregistrement_exemple 1 (JInt 0);
   JDict [("id", JInt 2)];
   enregistrement_exemple 3 (JInt 2);
   enregistrement_exemple 4 JNull;
   enregistrement_exemple 5 (JStr "1")].

End DonneesBanque.

Section DonneesStockage.

Import Stockage.

Definition entree_exemple (joueur : string) (points : Z) (pct : Q) (date : string)
    : Entree :=
  {| e_joueur_nom := Some joueur; e_theme := Some "Histoire";
     e_score_total := Some points; e_pourcentage := Some pct;
     e_date_heure := Some date; e_autres := [] |}.

Definition monde_exemple : Monde :=
  {| fichiers :=
       {[ "scores.json" :=
            Valide [entree_exemple "Ana" 1 (100 # 3) "2024-05-01T10:00:00+00:00";
                    entree_exemple "Luis" 3 100 "2024-05-02T10:00:00+00:00"] ]};
     sortie := [] |}.

(** Three games: the best score last in the log, and two equal results
    of which the later one comes first in the log. *)
Definition monde_classement : Monde :=
  {| fichiers :=
       {[ "scores.json" :=
            Valide [entree_exemple "Ana" 2 (200 # 3) "2024-05-03T10:00:00+00:00";
                    entree_exemple "Luis" 2 (200 # 3) "2024-05-01T10:00:00+00:00";
                    entree_exemple "Eva" 3 100 "2024-05-02T10:00:00+00:00"] ]};
     sortie := [] |}.

End DonneesStockage.

(* ===================================================================== *)
(** * Properties of the engine *)
(* ===================================================================== *)

Section ProprietesMoteur.

Import Moteur.

Implicit Types (s : Etat) (q : Question) (r : Soumission).

Lemma question_actuelle_indice s q :
  obtenir_question_actuelle s = Some q ->
  0 <= index_question_actuelle s < len (questions s).
Proof.
  unfold obtenir_question_actuelle.
  destruct (_ && _) eqn:E; [|discriminate].
  apply andb_true_iff in E as [E1 E2]. lia.
Qed.

Lemma question_actuelle_aucune s :
  len (questions s) <= index_question_actuelle s ->
  obtenir_question_actuelle s = None.
Proof.
  intros H. unfold obtenir_question_actuelle.
  replace (index_question_actuelle s <? len (questions s)) with false by lia.
  now rewrite andb_false_r.
Qed.

Lemma enregistrer_reponse_sans_question s index_reponse temps_ecoule temps_reponse :
  obtenir_question_actuelle s = None ->
  enregistrer_reponse s index_reponse temps_ecoule temps_reponse = s.
Proof. intros H. unfold enregistrer_reponse. now rewrite H. Qed.

Lemma question_actuelle_existe s :
  0 <= index_question_actuelle s < len (questions s) ->
  exists q, obtenir_question_actuelle s = Some q.
Proof.
  intros H. unfold obtenir_question_actuelle.
  replace (0 <=? index_question_actuelle s) with true by lia.
  replace (index_question_actuelle s <? len (questions s)) with true by lia.
  simpl. apply lookup_lt_is_Some. unfold len in H. lia.
Qed.

Lemma verdict_vrai q index_reponse temps_ecoule :
  verdict q index_reponse temps_ecoule = true <->
  temps_ecoule = false /\ index_reponse = Some (bonne_option q).
Proof.
  unfold verdict. destruct index_reponse as [i|], temps_ecoule; simpl;
    (split; [intros H | intros [H1 H2]]); try discriminate.
  - apply Z.eqb_eq in H. now subst.
  - injection H2 as ->. apply Z.eqb_refl.
Qed.

Lemma enregistrer_reponse_actuelle s q index_reponse temps_ecoule temps_reponse :
  obtenir_question_actuelle s = Some q ->
  let v := verdict q index_reponse temps_ecoule in
  enregistrer_reponse s index_reponse temps_ecoule temps_reponse =
  {| questions := questions s;
     nom_joueur := nom_joueur s;
     index_question_actuelle := index_question_actuelle s + 1;
     score := if v then score s + 1 else score s;
     bonnes := if v then bonnes s + 1 else bonnes s;
     mauvaises := if v then mauvaises s else mauvaises s + 1;
     temps_ecoules :=
       if v then temps_ecoules s
       else if temps_ecoule then temps_ecoules s + 1 else temps_ecoules s;
     historique_reponses :=
       historique_reponses s ++
       [{| numero := index_question_actuelle s + 1;
           question := q;
           reponse_choisie := index_reponse;
           est_correcte := v;
           temps_ecoule := temps_ecoule;
           temps_reponse := temps_reponse |}];
     horodatage_debut := horodatage_debut s;
     horodatage_fin := horodatage_fin s |}.
Proof.
  intros H v. unfold enregistrer_reponse. rewrite H.
  subst v. unfold verdict, est_reponse_correcte, obtenir_numero_question.
  now destruct index_reponse, temps_ecoule.
Qed.

(** C1. With a current question [q], [enregistrer_reponse] appends one
    record whose verdict is "correct" exactly when the time did not run
    out and an index was given that equals [q]'s correct option. A correct
    answer adds one to [bonnes] and to [score]; a timeout adds one to
    [mauvaises] and to [temps_ecoules]; any other answer in time adds one
    to [mauvaises] only. The counters not named stay as they were. *)
Theorem enregistrer_reponse_regle s q index_reponse temps_ecoule temps_reponse :
  obtenir_question_actuelle s = Some q ->
  let s' := enregistrer_reponse s index_reponse temps_ecoule temps_reponse in
  (exists rep,
     historique_reponses s' = historique_reponses s ++ [rep] /\
     question rep = q /\
     reponse_choisie rep = index_reponse /\
     (est_correcte rep = true <->
      temps_ecoule = false /\ exists i, index_reponse = Some i /\ i = bonne_option q)) /\
  (temps_ecoule = false -> index_reponse = Some (bonne_option q) ->
     bonnes s' = bonnes s + 1 /\ score s' = score s + 1 /\
     mauvaises s' = mauvaises s /\ temps_ecoules s' = temps_ecoules s) /\
  (temps_ecoule = true ->
     mauvaises s' = mauvaises s + 1 /\ temps_ecoules s' = temps_ecoules s + 1 /\
     bonnes s' = bonnes s /\ score s' = score s) /\
  (temps_ecoule = false -> index_reponse <> Some (bonne_option q) ->
     mauvaises s' = mauvaises s + 1 /\ temps_ecoules s' = temps_ecoules s /\
     bonnes s' = bonnes s /\ score s' = score s).
Proof.
  intros Hq s'. subst s'.
  rewrite (enregistrer_reponse_actuelle _ _ _ _ _ Hq). cbn.
  pose proof (verdict_vrai q index_reponse temps_ecoule) as Hv.
  split; [|split; [|split]].
  - eexists. split; [reflexivity|]. cbn.
    split; [reflexivity|]. split; [reflexivity|].
    rewrite Hv. split.
    + intros [H1 H2]. eauto.
    + intros [H1 (i & H2 & H3)]. subst. auto.
  - intros H1 H2. replace (verdict _ _ _) with true by (symmetry; tauto). tauto.
  - intros ->. replace (verdict q index_reponse true) with false; [tauto|].
    unfold verdict. now destruct index_reponse.
  - intros -> Hne. destruct (verdict q index_reponse false) eqn:E; [|tauto].
    apply verdict_vrai in E. tauto.
Qed.

Lemma enregistrer_reponse_regle_temoin :
  obtenir_question_actuelle session_exemple = Some (question_exemple 1 0 "Histoire") /\
  bonnes (enregistrer_reponse session_exemple (Some 0) false 5) = 1.
Proof.
  split; [reflexivity|].
  exact (proj1 (proj1 (proj2 (enregistrer_reponse_regle session_exemple
           (question_exemple 1 0 "Histoire") (Some 0) false 5 eq_refl))
         eq_refl eq_refl)).
Defined.

(** C4. Once the index has reached the number of questions,
    [enregistrer_reponse] returns the engine as it received it: score,
    counters, history and index are those of before the call. *)
Theorem enregistrer_reponse_apres_fin s index_reponse temps_ecoule temps_reponse :
  len (questions s) <= index_question_actuelle s ->
  enregistrer_reponse s index_reponse temps_ecoule temps_reponse = s.
Proof.
  intros H. apply enregistrer_reponse_sans_question.
  now apply question_actuelle_aucune.
Qed.

Lemma enregistrer_reponse_apres_fin_temoin :
  let s := jouer session_exemple
             [soumission (Some 0) false; soumission (Some 0) false;
              soumission None true] in
  len (questions s) <= index_question_actuelle s /\
  enregistrer_reponse s (Some 1) false 5 = s.
Proof.
  split; [vm_compute; discriminate|].
  apply enregistrer_reponse_apres_fin. vm_compute. discriminate.
Defined.

Lemma init_coherent qs nom t0 : coherent (init qs nom t0).
Proof. split; unfold len; cbn; lia. Qed.

Lemma soumettre_coherent s r : coherent s -> coherent (soumettre s r).
Proof.
  intros [H1 H2 H3 H4 H5]. unfold soumettre.
  destruct (obtenir_question_actuelle s) as [q|] eqn:E.
  - rewrite (enregistrer_reponse_actuelle _ _ _ _ _ E).
    apply question_actuelle_indice in E.
    generalize (verdict q (s_index r) (s_temps_ecoule r)) as v. intros v.
    split; cbn; unfold len in *; try rewrite length_app; cbn;
      destruct v, (s_temps_ecoule r); lia.
  - rewrite enregistrer_reponse_sans_question by exact E. now split.
Qed.

Lemma jouer_coherent rs s : coherent s -> coherent (jouer s rs).
Proof.
  revert s. induction rs as [|r rs IH]; intros s H; [exact H|].
  cbn. apply IH, soumettre_coherent, H.
Qed.

Lemma soumettre_questions s r : questions (soumettre s r) = questions s.
Proof.
  unfold soumettre, enregistrer_reponse.
  now destruct (obtenir_question_actuelle s).
Qed.

Lemma jouer_questions rs s : questions (jouer s rs) = questions s.
Proof.
  revert s. induction rs as [|r rs IH]; intros s; [reflexivity|].
  cbn. now rewrite IH, soumettre_questions.
Qed.

Lemma soumettre_indice s r :
  0 <= index_question_actuelle s ->
  index_question_actuelle (soumettre s r) =
  Z.min (index_question_actuelle s + 1) (Z.max (index_question_actuelle s) (len (questions s))).
Proof.
  intros H0. unfold soumettre.
  destruct (Z_lt_le_dec (index_question_actuelle s) (len (questions s))) as [H|H].
  - destruct (question_actuelle_existe s) as [q E]; [lia|].
    rewrite (enregistrer_reponse_actuelle _ _ _ _ _ E). cbn. lia.
  - rewrite enregistrer_reponse_sans_question
      by (apply question_actuelle_aucune; exact H).
    lia.
Qed.

(** After [k] calls from the start the index is [k], up to the number of
    questions. *)
Lemma jouer_indice rs qs nom t0 :
  index_question_actuelle (jouer (init qs nom t0) rs) =
  Z.min (len rs) (len qs).
Proof.
  induction rs as [|r rs IH] using rev_ind.
  - cbn. unfold len. cbn. lia.
  - unfold jouer in *. rewrite foldl_snoc.
    pose proof (jouer_coherent rs _ (init_coherent qs nom t0)) as [H _ _ _ _].
    unfold jouer in H.
    rewrite soumettre_indice by lia. fold (jouer (init qs nom t0) rs).
    rewrite jouer_questions. unfold jouer. rewrite IH. cbn.
    unfold len. rewrite length_app. cbn. lia.
Qed.

End ProprietesMoteur.

Section ProprietesSession.

Import Moteur.

(** C2. In a session driven by one call of [enregistrer_reponse] per
    question, after [k] calls the index is [k] and the history has [k]
    records; after the last call the session is complete, [bonnes] plus
    [mauvaises] is the number of questions and [score] equals [bonnes].
    With three questions answered correctly, wrongly and not in time, the
    results are 1 correct, 2 incorrect, 1 timed out, score 1 and 33.3
    percent. *)
Theorem session_invariants :
  (forall qs nom t0 rs,
     length rs = length qs ->
     (forall k, (k <= length rs)%nat ->
        let s := jouer (init qs nom t0) (take k rs) in
        index_question_actuelle s = Z.of_nat k /\
        len (historique_reponses s) = index_question_actuelle s) /\
     let s := jouer (init qs nom t0) rs in
     est_termine s = true /\
     bonnes s + mauvaises s = len qs /\
     score s = bonnes s) /\
  (forall q1 q2 q3 i nom t0 t1 t2 t3 h,
     i <> bonne_option q2 ->
     let s := jouer (init [q1; q2; q3] nom t0)
                [ {| s_index := Some (bonne_option q1); s_temps_ecoule := false;
                     s_temps := t1 |};
                  {| s_index := Some i; s_temps_ecoule := false; s_temps := t2 |};
                  {| s_index := None; s_temps_ecoule := true; s_temps := t3 |} ] in
     let r := (obtenir_resultats s h).1 in
     est_termine s = true /\
     nombre_questions r = 3 /\
     r_bonnes r = 1 /\ r_mauvaises r = 2 /\ r_temps_ecoules r = 1 /\
     score_total r = 1 /\
     pourcentage r = trente_trois_virgule_trois).
Proof.
  split.
  - intros qs nom t0 rs Hlen. split.
    + intros k Hk s.
      pose proof (jouer_coherent (take k rs) _ (init_coherent qs nom t0)) as [_ H _ _ _].
      subst s. split; [|exact H].
      rewrite jouer_indice. unfold len. rewrite length_take. lia.
    + intros s.
      pose proof (jouer_coherent rs _ (init_coherent qs nom t0)) as [_ _ H3 H4 _].
      pose proof (jouer_indice rs qs nom t0) as Hi.
      fold s in H3, H4, Hi. unfold len in Hi. rewrite Hlen in Hi.
      unfold est_termine. subst s. rewrite jouer_questions. cbn [questions init].
      unfold len in *. repeat split; lia.
  - intros q1 q2 q3 i nom t0 t1 t2 t3 h Hi s r.
    assert (Hs : exists hist, s =
      {| questions := [q1; q2; q3]; nom_joueur := nom;
         index_question_actuelle := 3; score := 1; bonnes := 1; mauvaises := 2;
         temps_ecoules := 1; historique_reponses := hist;
         horodatage_debut := t0; horodatage_fin := None |}).
    { subst r s. eexists. unfold jouer. cbn [foldl]. unfold soumettre at 3. cbn [s_index s_temps_ecoule s_temps].
      rewrite (enregistrer_reponse_actuelle _ q1) by reflexivity.
      unfold soumettre at 2. cbn [s_index s_temps_ecoule s_temps].
      rewrite (enregistrer_reponse_actuelle _ q2) by reflexivity.
      unfold soumettre. cbn [s_index s_temps_ecoule s_temps].
      rewrite (enregistrer_reponse_actuelle _ q3) by reflexivity.
      unfold verdict. cbn [negb andb]. rewrite Z.eqb_refl.
      replace (i =? bonne_option q2) with false by lia.
      reflexivity. }
    destruct Hs as [hist Hs]. subst r. rewrite Hs. cbn [obtenir_resultats fst nombre_questions r_bonnes
      r_mauvaises r_temps_ecoules score_total pourcentage est_termine
      questions index_question_actuelle bonnes mauvaises temps_ecoules score].
    repeat split.
Qed.

Lemma session_invariants_temoin :
  let rs := [soumission (Some 0) false; soumission (Some 0) false;
             soumission None true] in
  length rs = length (questions session_exemple) /\
  score (jouer session_exemple rs) = bonnes (jouer session_exemple rs) /\
  pourcentage (obtenir_resultats (jouer session_exemple rs)
                 {| temps_fin := 1060; temps_id := 1060;
                    maintenant_utc := "2024-05-01T10:00:00+00:00" |}).1
  = trente_trois_virgule_trois.
Proof.
  split; [reflexivity|]. split.
  - exact (proj2 (proj2 (proj2 (proj1 session_invariants
             (questions session_exemple) "Ana" 1000%float
             [soumission (Some 0) false; soumission (Some 0) false;
              soumission None true] eq_refl)))).
  - refine (proj2 (proj2 (proj2 (proj2 (proj2 (proj2 (proj2 session_invariants
             (question_exemple 1 0 "Histoire") (question_exemple 2 2 "Histoire")
             (question_exemple 3 1 "Histoire") 0 "Ana" 1000%float 5%float 5%float
             5%float _ _))))))).
    cbn. discriminate.
Defined.

End ProprietesSession.

Section ProprietesResultats.

Import Moteur.

(** C3. The percentage of the results is [round(bonnes / total * 100, 1)]
    when there is at least one question, and [0.0] when there is none;
    the division is not evaluated in that case. *)
Theorem pourcentage_resultats (s : Etat) (h : Horloge) :
  let r := (obtenir_resultats s h).1 in
  let total := len (questions s) in
  (0 < total ->
   pourcentage r =
   round1 (PrimFloat.mul (division_vraie (bonnes s) total) (flottant_de_Z 100))) /\
  (total = 0 -> pourcentage r = PrimFloat.zero) /\
  (questions s = [] -> pourcentage r = PrimFloat.zero).
Proof.
  cbn [obtenir_resultats fst pourcentage]. unfold calcul_pourcentage.
  split; [|split].
  - intros H. now replace (0 <? len (questions s)) with true by lia.
  - intros H. now rewrite H.
  - intros H. now rewrite H.
Qed.

(** Some values of the percentage, as Python prints them:
    [0.0], [66.7], [100.0], [6.2] (a tie, rounded to even). *)
Example pourcentage_valeurs :
  calcul_pourcentage 0 0 = 0%float /\
  calcul_pourcentage 2 3 = 0x1.0accccccccccdp+6%float /\
  calcul_pourcentage 10 10 = 100%float /\
  calcul_pourcentage 1 16 = 0x1.8cccccccccccdp+2%float.
Proof. repeat split; vm_compute; reflexivity. Qed.

Lemma nombre_valeurs_un (f : Question -> string) (qs : list Question) (t : string) :
  qs <> [] -> (forall q, q ∈ qs -> f q = t) -> nombre_valeurs f qs = 1%nat.
Proof.
  intros Hne Hall. unfold nombre_valeurs.
  assert (E : (list_to_set (f <$> qs) : gset string) = {[ t ]}).
  { apply set_eq. intros x.
    rewrite elem_of_list_to_set, list_elem_of_fmap, elem_of_singleton. split.
    - intros (q & -> & Hq). now apply Hall.
    - intros ->. destruct qs as [|q qs']; [congruence|].
      exists q. split; [symmetry; apply Hall|]; constructor. }
  rewrite E. apply size_singleton.
Qed.

Lemma nombre_valeurs_plusieurs (f : Question -> string) (qs : list Question) q1 q2 :
  q1 ∈ qs -> q2 ∈ qs -> f q1 <> f q2 -> nombre_valeurs f qs <> 1%nat.
Proof.
  intros H1 H2 Hne Hsize. unfold nombre_valeurs in Hsize.
  apply size_1_elem_of in Hsize as [x Hx].
  assert (Hin : forall q, q ∈ qs -> f q = x).
  { intros q Hq. apply (elem_of_singleton (C := gset string)). rewrite <- Hx.
    apply elem_of_list_to_set, list_elem_of_fmap. eauto. }
  apply Hne. now rewrite (Hin q1), (Hin q2).
Qed.

Lemma valeur_commune_unique f qs t :
  qs <> [] -> (forall q, q ∈ qs -> f q = t) -> valeur_commune f qs = t.
Proof.
  intros Hne Hall. unfold valeur_commune.
  rewrite (nombre_valeurs_un f qs t Hne Hall). cbn.
  destruct qs as [|q qs']; [congruence|]. apply Hall. constructor.
Qed.

Lemma valeur_commune_mix f qs q1 q2 :
  q1 ∈ qs -> q2 ∈ qs -> f q1 <> f q2 -> valeur_commune f qs = "mix".
Proof.
  intros H1 H2 Hne. unfold valeur_commune.
  pose proof (nombre_valeurs_plusieurs f qs q1 q2 H1 H2 Hne) as Hn.
  apply Nat.eqb_neq in Hn. now rewrite Hn.
Qed.

(** C8, as the code has it. For a non-empty list of questions, the theme
    of the results is the common theme when all the questions have the
    same one, and the text ["mix"] as soon as two of them differ; the
    same holds of the level. *)
Theorem theme_niveau_resultats (s : Etat) (h : Horloge) :
  questions s <> [] ->
  let r := (obtenir_resultats s h).1 in
  (forall t, (forall q, q ∈ questions s -> theme q = t) -> r_theme r = t) /\
  (forall q1 q2, q1 ∈ questions s -> q2 ∈ questions s -> theme q1 <> theme q2 ->
     r_theme r = "mix") /\
  (forall n, (forall q, q ∈ questions s -> niveau q = n) -> r_niveau r = n) /\
  (forall q1 q2, q1 ∈ questions s -> q2 ∈ questions s -> niveau q1 <> niveau q2 ->
     r_niveau r = "mix").
Proof.
  intros Hne. cbn [obtenir_resultats fst r_theme r_niveau].
  repeat split.
  - intros t. now apply valeur_commune_unique.
  - apply valeur_commune_mix.
  - intros n. now apply valeur_commune_unique.
  - apply valeur_commune_mix.
Qed.

Lemma theme_niveau_resultats_temoin :
  questions session_exemple <> [] /\
  r_theme (obtenir_resultats session_exemple horloge_exemple).1 = "Histoire".
Proof.
  split; [discriminate|].
  apply (proj1 (theme_niveau_resultats session_exemple horloge_exemple
                  ltac:(discriminate))).
  intros q Hq. cbn in Hq.
  repeat (apply elem_of_cons in Hq as [-> | Hq]; [reflexivity|]).
  now apply elem_of_nil in Hq.
Defined.

(** C8, as the specification words it: the sentinel is not ["mixed"]. *)
Lemma sentinelle_melange :
  r_theme (obtenir_resultats session_melangee horloge_exemple).1 = "mix" /\
  r_niveau (obtenir_resultats session_melangee horloge_exemple).1 = "mix" /\
  r_theme (obtenir_resultats session_melangee horloge_exemple).1 <> "mixed" /\
  r_niveau (obtenir_resultats session_melangee horloge_exemple).1 <> "mixed".
Proof. repeat split; vm_compute; congruence. Qed.

End ProprietesResultats.

(* ===================================================================== *)
(** * Properties of [random] *)
(* ===================================================================== *)

Section ProprietesRandom.

Import Random.

Context {A : Type}.
Implicit Types (x l pool population : list A) (g : Generateur).

Lemma randbelow_lt n g : (0 < n)%nat -> ((randbelow n g).1 < n)%nat.
Proof.
  intros H. destruct g as [|d g]; cbn; [exact H|].
  apply Nat.mod_upper_bound. lia.
Qed.

Lemma insert_permute l j (a b : A) :
  l !! j = Some b -> b :: <[j := a]> l ≡ₚ a :: l.
Proof.
  revert j. induction l as [|c l IH]; intros [|j] H; try discriminate.
  - injection H as ->. cbn. apply perm_swap.
  - cbn in *. rewrite (perm_swap c b), (IH j H). apply perm_swap.
Qed.

Lemma echanger_cons (c : A) l i j :
  echanger (c :: l) (S i) (S j) = c :: echanger l i j.
Proof.
  unfold echanger. cbn.
  destruct (l !! i) as [a|], (l !! j) as [b|]; reflexivity.
Qed.

Lemma echanger_permutation x i j : echanger x i j ≡ₚ x.
Proof.
  revert i j. induction x as [|c x IH]; intros i j.
  - unfold echanger. now rewrite lookup_nil.
  - destruct i as [|i], j as [|j].
    + reflexivity.
    + unfold echanger. cbn. destruct (x !! j) as [b|] eqn:E; [|reflexivity].
      cbn. now apply insert_permute.
    + unfold echanger. cbn. destruct (x !! i) as [a|] eqn:E; [|reflexivity].
      cbn. now apply insert_permute.
    + rewrite echanger_cons. now rewrite IH.
Qed.

Lemma shuffle_boucle_permutation i x g : (shuffle_boucle i x g).1 ≡ₚ x.
Proof.
  revert x g. induction i as [|i IH]; intros x g; [reflexivity|].
  cbn [shuffle_boucle]. destruct (randbelow (S (S i)) g) as [j g'].
  rewrite IH. apply echanger_permutation.
Qed.

(** [random.shuffle] reorders the list and neither adds nor loses an item. *)
Lemma shuffle_permutation x g : (shuffle x g).1 ≡ₚ x.
Proof. apply shuffle_boucle_permutation. Qed.

Lemma sample_boucle_longueur k n pool g :
  (k <= n <= length pool)%nat ->
  exists r g', sample_boucle k n pool g = Retour (r, g') /\ length r = k.
Proof.
  revert n pool g. induction k as [|k IH]; intros n pool g [H1 H2].
  - now exists [], g.
  - cbn [sample_boucle].
    pose proof (randbelow_lt n g ltac:(lia)) as Hj.
    destruct (randbelow n g) as [j g']. cbn in Hj.
    destruct (lookup_lt_is_Some_2 pool j ltac:(lia)) as [a ->].
    destruct (lookup_lt_is_Some_2 pool (n - 1) ltac:(lia)) as [d ->].
    destruct (IH (n - 1)%nat (<[j := d]> pool) g') as (r & g'' & -> & Hr).
    { rewrite length_insert. lia. }
    cbn. exists (a :: r), g''. split; [reflexivity|]. cbn. now rewrite Hr.
Qed.

(** [random.sample] answers [k] items when [0 <= k <= len(population)],
    and raises [ValueError] otherwise. *)
Lemma sample_longueur population (k : Z) g :
  0 <= k <= Z.of_nat (length population) ->
  exists r g', sample population k g = Retour (r, g') /\ Z.of_nat (length r) = k.
Proof.
  intros H. unfold sample.
  replace ((0 <=? k) && (k <=? Z.of_nat (length population))) with true by lia.
  destruct (sample_boucle_longueur (Z.to_nat k) (length population) population g)
    as (r & g' & E & Hr); [lia|].
  exists r, g'. split; [exact E|lia].
Qed.

Lemma sample_negatif population (k : Z) g :
  k < 0 -> sample population k g = Leve ValueError.
Proof.
  intros H. unfold sample. now replace (0 <=? k) with false by lia.
Qed.

End ProprietesRandom.

(* ===================================================================== *)
(** * Properties of the question bank: filtering and sampling *)
(* ===================================================================== *)

Section ProprietesEchantillon.

Import Banque.

Implicit Types (b : Objet) (t : Tas) (g : Random.Generateur)
  (themes : option (list string)).

Lemma lire_allouer t (l : list Question) : lire (t ++ [l]) (length t) = l.
Proof.
  unfold lire. rewrite lookup_app_r by lia.
  now rewrite Nat.sub_diag.
Qed.

Lemma lire_allouer_ancien t (l : list Question) a :
  (a < length t)%nat -> lire (t ++ [l]) a = lire t a.
Proof. intros H. unfold lire. now rewrite lookup_app_l. Qed.

Lemma lire_insert t a (l : list Question) :
  (a < length t)%nat -> lire (<[a := l]> t) a = l.
Proof. intros H. unfold lire. now rewrite list_lookup_insert_eq. Qed.

Lemma lire_insert_autre t a a' (l : list Question) :
  a <> a' -> lire (<[a := l]> t) a' = lire t a'.
Proof. intros H. unfold lire. now rewrite list_lookup_insert_ne. Qed.

Lemma lire_non_vide t a : lire t a <> [] -> (a < length t)%nat.
Proof.
  unfold lire. intros H. destruct (t !! a) eqn:E; [|now cbn in H].
  now apply lookup_lt_Some in E.
Qed.

(** [filtrer] without levels: the bank's own list object when no theme is
    active, a new object holding the selection otherwise. *)
Lemma filtrer_themes b themes t :
  filtrer b themes None t =
  match actif themes with
  | [] => (questions b, t)
  | ths => (length t, t ++ [filter (fun q => theme q ∈ ths) (lire t (questions b))])
  end.
Proof. unfold filtrer, allouer. cbn. now destruct (actif themes). Qed.

Lemma filtrer_reserve b themes t :
  lire (filtrer b themes None t).2 (filtrer b themes None t).1 =
  reserve_filtree b themes t.
Proof.
  rewrite filtrer_themes. unfold reserve_filtree.
  destruct (actif themes); [reflexivity|]. cbn [fst snd]. apply lire_allouer.
Qed.

(** The three branches of [echantillonner_questions], by the selection. *)
Lemma echantillonner_questions_branches b nombre themes t g :
  let n := Z.min nombre NOMBRE_QUESTIONS_MAX in
  let reserve := reserve_filtree b themes t in
  let adresse := (filtrer b themes None t).1 in
  let t1 := (filtrer b themes None t).2 in
  echantillonner_questions b nombre themes t g =
  if bool_decide (reserve = []) then (Retour [], t1, g)
  else if Z.of_nat (length reserve) <=? n
       then (Retour (tranche (Random.shuffle reserve g).1 n),
             <[adresse := (Random.shuffle reserve g).1]> t1,
             (Random.shuffle reserve g).2)
       else match Random.sample reserve n g with
            | Retour (r, g') => (Retour r, t1, g')
            | Leve e => (Leve e, t1, g)
            end.
Proof.
  intros n reserve adresse t1. unfold echantillonner_questions.
  fold n. pose proof (filtrer_reserve b themes t) as E.
  fold adresse t1 reserve in E.
  destruct (filtrer b themes None t) as [a t'] eqn:F. cbn [fst snd] in *.
  subst adresse t1. rewrite E.
  destruct reserve as [|q l]; [reflexivity|]. cbn [bool_decide decide_rel].
  rewrite bool_decide_eq_false_2 by discriminate.
  destruct (_ <=? n); [|reflexivity].
  now destruct (Random.shuffle (q :: l) g).
Qed.

Lemma tranche_entiere {A} (l : list A) (n : Z) :
  Z.of_nat (length l) <= n -> tranche l n = l.
Proof.
  intros H. unfold tranche. replace (0 <=? n) with true by lia.
  apply take_ge. lia.
Qed.

(** C5. When the selection for the given themes holds [N <= 10] distinct
    questions, [echantillonner_questions(10, themes)] returns [min(N, 10)]
    questions, without duplicate: the selection itself in some order.
    It returns the empty list when the selection is empty, whatever the
    requested number; and whatever the requested number it returns at
    most 10 questions (it returns for every number that is not negative,
    and raises [ValueError] otherwise). *)
Theorem echantillonner_questions_taille :
  (forall b themes t g,
     let reserve := reserve_filtree b themes t in
     NoDup reserve -> (length reserve <= 10)%nat ->
     exists l,
       (echantillonner_questions b 10 themes t g).1.1 = Retour l /\
       length l = Nat.min (length reserve) 10 /\ NoDup l /\ l ≡ₚ reserve) /\
  (forall b nombre themes t g,
     reserve_filtree b themes t = [] ->
     (echantillonner_questions b nombre themes t g).1.1 = Retour []) /\
  (forall b nombre themes t g,
     match (echantillonner_questions b nombre themes t g).1.1 with
     | Retour l => (length l <= 10)%nat
     | Leve e => e = ValueError /\ nombre < 0
     end).
Proof.
  split; [|split].
  - intros b themes t g reserve Hnd Hlen.
    rewrite echantillonner_questions_branches. fold reserve.
    change (Z.min 10 NOMBRE_QUESTIONS_MAX) with 10.
    pose proof (shuffle_permutation reserve g) as Hp.
    case_bool_decide as Hvide.
    + exists []. rewrite Hvide. cbn. repeat split; constructor.
    + replace (Z.of_nat (length reserve) <=? 10) with true by lia.
      cbn [fst]. exists (Random.shuffle reserve g).1.
      rewrite tranche_entiere by (rewrite Hp; lia).
      repeat split; [now rewrite Hp; lia| now rewrite Hp | exact Hp].
  - intros b nombre themes t g Hvide.
    rewrite echantillonner_questions_branches, Hvide.
    now rewrite bool_decide_eq_true_2.
  - intros b nombre themes t g.
    rewrite echantillonner_questions_branches.
    set (reserve := reserve_filtree b themes t).
    set (n := Z.min nombre NOMBRE_QUESTIONS_MAX).
    assert (Hn : n <= 10) by (subst n; unfold NOMBRE_QUESTIONS_MAX; lia).
    pose proof (shuffle_permutation reserve g) as Hp.
    case_bool_decide as Hvide; [cbn; lia|].
    destruct (Z.of_nat (length reserve) <=? n) eqn:E.
    + cbn [fst]. rewrite tranche_entiere by (rewrite Hp; lia).
      rewrite Hp. lia.
    + destruct (Z_lt_le_dec n 0) as [Hneg|Hpos].
      * rewrite sample_negatif by exact Hneg. cbn.
        split; [reflexivity|]. subst n. unfold NOMBRE_QUESTIONS_MAX in *. lia.
      * destruct (sample_longueur reserve n g) as (r & g' & -> & Hr); [lia|].
        cbn. lia.
Qed.

Lemma echantillonner_questions_taille_temoin :
  NoDup (reserve_filtree banque_exemple (Some ["Histoire"]) tas_exemple) /\
  (length (reserve_filtree banque_exemple (Some ["Histoire"]) tas_exemple) <= 10)%nat /\
  exists l,
    (echantillonner_questions banque_exemple 10 (Some ["Histoire"]) tas_exemple
       [1; 0]%nat).1.1 = Retour l /\
    length l = Nat.min (length (reserve_filtree banque_exemple (Some ["Histoire"])
                                  tas_exemple)) 10 /\
    NoDup l /\
    l ≡ₚ reserve_filtree banque_exemple (Some ["Histoire"]) tas_exemple.
Proof.
  assert (H : NoDup (reserve_filtree banque_exemple (Some ["Histoire"]) tas_exemple)).
  { vm_compute. repeat constructor; rewrite ?elem_of_cons, ?elem_of_nil;
      intros H; repeat destruct H as [H|H]; try discriminate H; exact H. }
  split; [exact H|]. split; [vm_compute; lia|].
  apply (proj1 echantillonner_questions_taille banque_exemple (Some ["Histoire"])
           tas_exemple [1; 0]%nat H).
  vm_compute. lia.
Defined.

(** C10, as the code has it. With no active theme filter and a bank of at
    least one and at most [min(nombre, 10)] questions,
    [echantillonner_questions] shuffles the bank's own list object: after
    the call the bank's list is the shuffled list that the call returns,
    and no other list object has changed. In every case the bank's list
    after the call is a reordering of the list before, and there are calls
    after which the order is not the one before. *)
Theorem echantillonner_questions_en_place :
  (forall b nombre themes t g,
     actif themes = [] ->
     let reserve := lire t (questions b) in
     0 < Z.of_nat (length reserve) <= Z.min nombre NOMBRE_QUESTIONS_MAX ->
     let appel := echantillonner_questions b nombre themes t g in
     lire appel.1.2 (questions b) = (Random.shuffle reserve g).1 /\
     appel.1.1 = Retour (Random.shuffle reserve g).1 /\
     length appel.1.2 = length t /\
     (forall a, a <> questions b -> lire appel.1.2 a = lire t a)) /\
  (forall b nombre themes t g,
     (questions b < length t)%nat ->
     lire (echantillonner_questions b nombre themes t g).1.2 (questions b)
     ≡ₚ lire t (questions b)) /\
  (exists b nombre themes t g,
     lire (echantillonner_questions b nombre themes t g).1.2 (questions b)
     <> lire t (questions b)).
Proof.
  split; [|split].
  - intros b nombre themes t g Hact reserve Hlen appel. subst appel.
    rewrite echantillonner_questions_branches, filtrer_themes.
    unfold reserve_filtree. rewrite Hact. fold reserve. cbn [fst snd].
    assert (Hne : reserve <> []) by (intros E; rewrite E in Hlen; cbn in Hlen; lia).
    rewrite bool_decide_eq_false_2 by exact Hne.
    replace (Z.of_nat (length reserve) <=? Z.min nombre NOMBRE_QUESTIONS_MAX)
      with true by lia.
    cbn [fst snd]. pose proof (shuffle_permutation reserve g) as Hp.
    repeat split.
    + apply lire_insert. now apply lire_non_vide.
    + now rewrite tranche_entiere by (rewrite Hp; lia).
    + apply length_insert.
    + intros a Ha. apply lire_insert_autre. congruence.
  - intros b nombre themes t g Hb.
    rewrite echantillonner_questions_branches, filtrer_themes.
    unfold reserve_filtree.
    destruct (actif themes) as [|th ths] eqn:Hact; cbn [fst snd].
    + case_bool_decide; [reflexivity|].
      destruct (_ <=? _).
      * cbn [fst snd]. rewrite lire_insert by exact Hb.
        apply shuffle_permutation.
      * now destruct (Random.sample _ _ _) as [[r g']|e].
    + set (sel := filter _ _).
      assert (Hanc : lire (t ++ [sel]) (questions b) = lire t (questions b))
        by now apply lire_allouer_ancien.
      case_bool_decide; [cbn [fst snd]; now rewrite Hanc|].
      destruct (_ <=? _).
      * cbn [fst snd]. rewrite lire_insert_autre by lia. now rewrite Hanc.
      * destruct (Random.sample _ _ _) as [[r g']|e]; cbn [fst snd]; now rewrite Hanc.
  - exists banque_exemple, 10, None, tas_exemple, [1; 0; 0]%nat.
    vm_compute. discriminate.
Qed.

Lemma echantillonner_questions_en_place_temoin :
  actif None = [] /\
  0 < Z.of_nat (length (lire tas_exemple (questions banque_exemple)))
    <= Z.min 10 NOMBRE_QUESTIONS_MAX /\
  lire (echantillonner_questions banque_exemple 10 None tas_exemple
          [1; 0; 0]%nat).1.2 (questions banque_exemple)
  = (Random.shuffle (lire tas_exemple (questions banque_exemple)) [1; 0; 0]%nat).1.
Proof.
  split; [reflexivity|]. split; [vm_compute; split; [reflexivity|discriminate]|].
  apply (proj1 echantillonner_questions_en_place banque_exemple 10 None tas_exemple
           [1; 0; 0]%nat eq_refl).
  vm_compute. split; [reflexivity|discriminate].
Defined.

(** C10, as the specification words it: with eleven questions and eleven
    requested, the bank holds no more than the requested number, yet its
    list is left in its order, which is not the order that shuffling it
    with the same generator gives. *)
Lemma melange_au_dela_de_dix :
  Z.of_nat (length (lire tas_onze (questions banque_exemple))) <= 11 /\
  lire (echantillonner_questions banque_exemple 11 None tas_onze [1]%nat).1.2
       (questions banque_exemple)
  = lire tas_onze (questions banque_exemple) /\
  lire (echantillonner_questions banque_exemple 11 None tas_onze [1]%nat).1.2
       (questions banque_exemple)
  <> (Random.shuffle (lire tas_onze (questions banque_exemple)) [1]%nat).1.
Proof.
  split; [vm_compute; discriminate|]. split; [reflexivity|].
  vm_compute. discriminate.
Qed.

End ProprietesEchantillon.

(* ===================================================================== *)
(** * Properties of the question bank: loading *)
(* ===================================================================== *)

Lemma int_de_flottant_fini (x : float) :
  PrimFloat.is_infinity x = false -> int_de_flottant x <> Leve OverflowError.
Proof.
  intros H. unfold int_de_flottant, Prim2SF. rewrite H.
  destruct (PrimFloat.is_nan x); [discriminate|].
  destruct (PrimFloat.is_zero x); [discriminate|].
  destruct (Z.frexp x) as [r e].
  destruct (shr_fexp _ _ _ _ _) as [shr e'].
  destruct (shr_m shr); discriminate.
Qed.

Lemma int_de_flottant_exceptions (x : float) e :
  int_de_flottant x = Leve e -> e = ValueError \/ e = OverflowError.
Proof.
  unfold int_de_flottant. destruct (Prim2SF x); intros H; inversion H; auto.
Qed.

Section ProprietesChargement.

Import Banque.

Variable repr : JSON -> string.
Variable int_de_chaine : string -> option Z.

Abbreviation construire := (construire repr int_de_chaine).
Abbreviation charger_element := (charger_element repr int_de_chaine).
Abbreviation charger_elements := (charger_elements repr int_de_chaine).
Abbreviation _charger_fichier := (_charger_fichier repr int_de_chaine).
Abbreviation charger_fichiers := (charger_fichiers repr int_de_chaine).
Abbreviation _charger_questions := (_charger_questions repr int_de_chaine).
Abbreviation question_de := (question_de repr int_de_chaine).
Abbreviation avertissement_de := (avertissement_de repr int_de_chaine).

Lemma question_valide_options q : question_valide q -> options q <> [].
Proof. unfold question_valide. intros H E. rewrite E in H. cbn in H. lia. Qed.

Lemma py_int_exceptions v e :
  py_int int_de_chaine v = Leve e ->
  e = ValueError \/ e = TypeError \/
  (e = OverflowError /\ exists x, v = JFloat x /\ int_de_flottant x = Leve OverflowError).
Proof.
  destruct v; cbn; intros H; try (inversion H; auto; fail).
  - destruct (int_de_flottant_exceptions _ _ H) as [->| ->]; eauto 6.
  - destruct (int_de_chaine s); inversion H; auto.
Qed.

Lemma py_list_exceptions v e : py_list v = Leve e -> e = TypeError.
Proof. destruct v; cbn; intros H; inversion H; auto. Qed.

(** On an object, building the question raises nothing but the caught
    exceptions, unless an integer field is an infinite float. *)
Lemma construire_exceptions d e :
  enregistrement (JDict d) ->
  construire (JDict d) = Leve e -> attrape_question e = true.
Proof.
  intros Hfini. unfold Banque.construire, indexer.
  assert (Hint : forall k v, k = "id" \/ k = "bonne_option" ->
            recherche k d = Some v -> py_int int_de_chaine v = Leve e ->
            attrape_question e = true).
  { intros k v Hk Hv Hi.
    destruct (py_int_exceptions _ _ Hi) as [->|[->|(-> & x & -> & Hx)]]; try reflexivity.
    exfalso. exact (int_de_flottant_fini x (Hfini k x Hk Hv) Hx). }
  destruct (recherche "id" d) as [v1|] eqn:E1; cbn [lier];
    [|intros H; inversion H; reflexivity].
  destruct (py_int int_de_chaine v1) as [a1|e1] eqn:I1; cbn [lier];
    [|intros H; inversion H; subst; eapply (Hint "id"); eauto].
  destruct (recherche "theme" d) as [v2|]; cbn [lier];
    [|intros H; inversion H; reflexivity].
  destruct (recherche "niveau" d) as [v3|]; cbn [lier];
    [|intros H; inversion H; reflexivity].
  destruct (recherche "texte" d) as [v4|]; cbn [lier];
    [|intros H; inversion H; reflexivity].
  destruct (recherche "options" d) as [v5|]; cbn [lier];
    [|intros H; inversion H; reflexivity].
  destruct (py_list v5) as [a5|e5] eqn:L5; cbn [lier];
    [|intros H; inversion H; subst; now rewrite (py_list_exceptions _ _ L5)].
  destruct (recherche "bonne_option" d) as [v6|] eqn:E6; cbn [lier];
    [|intros H; inversion H; reflexivity].
  destruct (py_int int_de_chaine v6) as [a6|e6] eqn:I6; cbn [lier];
    [|intros H; inversion H; subst; eapply (Hint "bonne_option"); eauto].
  discriminate.
Qed.

Lemma toutes_presentes_dict ks d : exists p, toutes_presentes ks (JDict d) = Retour p.
Proof.
  induction ks as [|k ks IH]; cbn; [eauto|].
  destruct (bool_decide _); [exact IH|eauto].
Qed.

(** One record that is an object: no exception, and the state grows by
    what the record contributes. *)
Lemma charger_element_enregistrement element c :
  enregistrement element ->
  charger_element element c =
  Retour {| charge := charge c ++ option_list (question_de element);
            journal := journal c ++ option_list (avertissement_de element) |}.
Proof.
  destruct element as [| | | | | |d]; try contradiction. intros Hfini.
  unfold Banque.charger_element, Banque.question_de, Banque.avertissement_de.
  destruct (toutes_presentes_dict cles d) as [p ->]. cbn [lier].
  destruct c as [ch jo]. destruct p; cbn [negb charge journal].
  - destruct (construire (JDict d)) as [q|e] eqn:E.
    + destruct (_ && _); cbn; now rewrite ?app_nil_r.
    + rewrite (construire_exceptions d e Hfini E). cbn. now rewrite app_nil_r.
  - cbn. now rewrite !app_nil_r.
Qed.

Lemma charger_elements_enregistrements donnees c :
  Forall enregistrement donnees ->
  charger_elements donnees c =
  ({| charge := charge c ++ omap question_de donnees;
      journal := journal c ++ omap avertissement_de donnees |}, None).
Proof.
  intros H. revert c. induction H as [|element reste He _ IH]; intros c.
  - cbn. destruct c. cbn. now rewrite !app_nil_r.
  - cbn [Banque.charger_elements]. rewrite charger_element_enregistrement by exact He.
    rewrite IH. cbn [charge journal omap list_omap].
    f_equal. f_equal; rewrite <- app_assoc; f_equal;
      [now destruct (question_de element) | now destruct (avertissement_de element)].
Qed.

Lemma toutes_presentes_vrai ks d :
  (forall k, k ∈ ks -> is_Some (recherche k d)) ->
  toutes_presentes ks (JDict d) = Retour true.
Proof.
  induction ks as [|k ks IH]; intros H; [reflexivity|]. cbn.
  rewrite bool_decide_eq_true_2 by (apply H; constructor).
  apply IH. intros k' Hk'. apply H. now constructor.
Qed.

Lemma toutes_presentes_faux ks d k :
  k ∈ ks -> recherche k d = None -> toutes_presentes ks (JDict d) = Retour false.
Proof.
  intros Hk Hnone. induction ks as [|k' ks IH]; [now apply elem_of_nil in Hk|].
  cbn. case_bool_decide as Hk'; [|reflexivity].
  apply elem_of_cons in Hk as [->|Hk]; [|now apply IH].
  rewrite Hnone in Hk'. now destruct Hk'.
Qed.

(** Whatever the record, what is appended to the bank is in range. *)
Lemma charger_element_valide element c c' :
  charger_element element c = Retour c' ->
  Forall question_valide (charge c) -> Forall question_valide (charge c').
Proof.
  unfold Banque.charger_element.
  destruct (toutes_presentes cles element) as [p|e]; cbn [lier]; [|discriminate].
  destruct p; cbn [negb]; [|now intros [= <-]].
  destruct (construire element) as [q|e].
  - destruct (_ && _) eqn:E; [|now intros [= <-]].
    intros [= <-] H. cbn. apply Forall_app. split; [exact H|].
    constructor; [|constructor]. unfold question_valide.
    apply andb_true_iff in E. lia.
  - destruct (attrape_question e); [|discriminate].
    destruct (get element "id"); cbn [lier]; [|discriminate].
    now intros [= <-].
Qed.

Lemma charger_elements_valide donnees c :
  Forall question_valide (charge c) ->
  Forall question_valide (charge (charger_elements donnees c).1).
Proof.
  revert c. induction donnees as [|element reste IH]; intros c H; [exact H|].
  cbn [Banque.charger_elements].
  destruct (charger_element element c) as [c'|e] eqn:E; [|exact H].
  apply IH. exact (charger_element_valide _ _ _ E H).
Qed.

Lemma _charger_fichier_valide chemin lu c :
  Forall question_valide (charge c) ->
  Forall question_valide (charge (_charger_fichier chemin lu c).1).
Proof.
  intros H. unfold Banque._charger_fichier.
  destruct lu as [e|donnees].
  - now destruct (attrape_fichier e).
  - destruct donnees as [| | | | |l|]; try exact H.
    pose proof (charger_elements_valide l c H) as H'.
    destruct (charger_elements l c) as [c' [e|]]; [|exact H'].
    now destruct (attrape_fichier e).
Qed.

Lemma charger_fichiers_valide fichiers c :
  Forall question_valide (charge c) ->
  Forall question_valide (charge (charger_fichiers fichiers c).1).
Proof.
  revert c. induction fichiers as [|[chemin lu] reste IH]; intros c H; [exact H|].
  cbn [Banque.charger_fichiers].
  pose proof (_charger_fichier_valide chemin lu c H) as H'.
  destruct (_charger_fichier chemin lu c) as [c' [e|]]; [exact H'|].
  now apply IH.
Qed.

Lemma _charger_questions_valide src c :
  Forall question_valide (charge c) ->
  Forall question_valide (charge (_charger_questions src c).1).
Proof.
  intros H. destruct src as [fichiers|lu|]; cbn.
  - now apply charger_fichiers_valide.
  - now apply _charger_fichier_valide.
  - exact H.
Qed.


End ProprietesChargement.



(** A record that is not a container stops the loading: [k in element]
    raises [TypeError] outside the inner [try], and the outer one does not
    catch it. The records that follow are not read. *)
Example enregistrement_non_conteneur :
  Banque._charger_fichier repr_exemple int_exemple "questions.json"
    (Banque.Decode (JList [enregistrement_exemple 1 (JInt 0); JInt 7;
                           enregistrement_exemple 5 (JInt 1)])) Banque.vide
  = ({| Banque.charge :=
          [{| id := 1; theme := "Histoire"; niveau := "facile"; texte := "?";
              options := [JStr "a"; JStr "b"]; bonne_option := 0 |}];
        Banque.journal := [] |}, Some TypeError).
Proof. reflexivity. Qed.

(** So does an infinite number where an integer is expected:
    [OverflowError] is not among the caught exceptions. *)
Example enregistrement_infini :
  (Banque._charger_fichier repr_exemple int_exemple "questions.json"
     (Banque.Decode (JList [enregistrement_exemple 1 (JFloat infinity)]))
     Banque.vide).2 = Some OverflowError.
Proof. reflexivity. Qed.

(* ===================================================================== *)
(** * Properties of the score store *)
(* ===================================================================== *)

Section ProprietesSauvegarde.

Import Stockage.

Lemma chemin_temporaire_distinct (chemin : string) : chemin +:+ ".tmp" <> chemin.
Proof.
  induction chemin as [|a chemin IH]; cbn; [discriminate|].
  intros [= H]. exact (IH H).
Qed.

(** C9, as the code has it. When the file system fails while
    [sauvegarder_score] writes, the method catches the [IOError], prints a
    line and returns normally: the caller receives no error. The file of
    scores keeps the content it had, so what [charger_tous] reads is what
    it read before. Whether or not the write fails, the file of scores
    holds after the call either its former content or the complete new
    log, and the complete new log when nothing fails. *)
Theorem sauvegarder_score_panne :
  (forall chemin entree p m,
     p <> SansPanne ->
     let appel := sauvegarder_score chemin entree p m in
     appel.1 = Retour () /\
     sortie appel.2 = sortie m ++ [ErreurSauvegarde IOError] /\
     fichiers appel.2 !! chemin = fichiers m !! chemin /\
     charger_tous chemin appel.2 = charger_tous chemin m) /\
  (forall chemin entree p m,
     let appel := sauvegarder_score chemin entree p m in
     fichiers appel.2 !! chemin = fichiers m !! chemin \/
     fichiers appel.2 !! chemin = Some (Valide (charger_tous chemin m ++ [entree]))) /\
  (forall chemin entree m,
     let appel := sauvegarder_score chemin entree SansPanne m in
     appel.1 = Retour () /\
     sortie appel.2 = sortie m /\
     charger_tous chemin appel.2 = charger_tous chemin m ++ [entree]).
Proof.
  split; [|split].
  - intros chemin entree p m Hp appel. subst appel.
    pose proof (chemin_temporaire_distinct chemin) as Hd.
    unfold sauvegarder_score, charger_tous.
    destruct p; [congruence| | |]; cbn;
      rewrite ?lookup_insert_ne by exact Hd; auto.
  - intros chemin entree p m appel. subst appel.
    pose proof (chemin_temporaire_distinct chemin) as Hd.
    unfold sauvegarder_score.
    destruct p; cbn; rewrite ?lookup_insert_eq, ?lookup_insert_ne by exact Hd; auto.
  - intros chemin entree m appel. subst appel.
    unfold sauvegarder_score.
    cbn [ecrire_puis_remplacer fst snd sortie].
    repeat split. unfold charger_tous at 1. cbn [fichiers].
    now rewrite lookup_insert_eq.
Qed.

Lemma sauvegarder_score_panne_temoin :
  PanneEcriture <> SansPanne /\
  (sauvegarder_score "scores.json"
     (entree_exemple "Eva" 2 (200 # 3) "2024-05-03T10:00:00+00:00")
     PanneEcriture monde_exemple).1 = Retour () /\
  charger_tous "scores.json"
    (sauvegarder_score "scores.json"
       (entree_exemple "Eva" 2 (200 # 3) "2024-05-03T10:00:00+00:00")
       PanneEcriture monde_exemple).2
  = charger_tous "scores.json" monde_exemple.
Proof.
  split; [discriminate|].
  pose proof (proj1 sauvegarder_score_panne "scores.json"
                (entree_exemple "Eva" 2 (200 # 3) "2024-05-03T10:00:00+00:00")
                PanneEcriture monde_exemple ltac:(discriminate)) as H.
  cbv zeta in H. tauto.
Defined.

(** C9, as the specification words it: the caller of a write that fails does not
    receive an [IOError]. *)
Lemma panne_non_signalee :
  (sauvegarder_score "scores.json"
     (entree_exemple "Eva" 2 (200 # 3) "2024-05-03T10:00:00+00:00")
     PanneEcriture monde_exemple).1 = Retour () /\
  (sauvegarder_score "scores.json"
     (entree_exemple "Eva" 2 (200 # 3) "2024-05-03T10:00:00+00:00")
     PanneEcriture monde_exemple).1 <> Leve IOError.
Proof. split; [reflexivity|discriminate]. Qed.

End ProprietesSauvegarde.

Section ProprietesClassement.

Import Stockage.

Implicit Types (a b c : Entree) (l : list Entree).

Lemma date_compare_refl s : String_as_OT.compare s s = Eq.
Proof.
  destruct (String_as_OT.compare_spec s s) as [_|H|H]; [reflexivity| |];
    now apply (StrictOrder_Irreflexive (R := String_as_OT.lt) s) in H.
Qed.

Lemma date_lt_irrefl s : ~ String_as_OT.lt s s.
Proof. apply (StrictOrder_Irreflexive (R := String_as_OT.lt)). Qed.

Lemma date_lt_asym s1 s2 : String_as_OT.lt s1 s2 -> ~ String_as_OT.lt s2 s1.
Proof.
  intros H H'. apply (date_lt_irrefl s1).
  exact (StrictOrder_Transitive (R := String_as_OT.lt) _ _ _ H H').
Qed.

Lemma date_compare_antisym s1 s2 :
  String_as_OT.compare s2 s1 = CompOpp (String_as_OT.compare s1 s2).
Proof.
  destruct (String_as_OT.compare_spec s1 s2) as [->|H|H]; cbn.
  - apply date_compare_refl.
  - destruct (String_as_OT.compare_spec s2 s1) as [E|H'|H']; [| |reflexivity].
    + rewrite E in H. now apply date_lt_irrefl in H.
    + now apply date_lt_asym in H.
  - destruct (String_as_OT.compare_spec s2 s1) as [E|H'|H']; [|reflexivity|].
    + rewrite E in H. now apply date_lt_irrefl in H.
    + now apply date_lt_asym in H.
Qed.

Lemma date_le_lt s1 s2 : date_le s1 s2 <-> ~ date_lt s2 s1.
Proof.
  unfold date_le, date_lt. rewrite (date_compare_antisym s1 s2).
  destruct (String_as_OT.compare s1 s2); cbn; split; congruence.
Qed.

Lemma date_le_trans s1 s2 s3 : date_le s1 s2 -> date_le s2 s3 -> date_le s1 s3.
Proof.
  unfold date_le.
  destruct (String_as_OT.compare_spec s1 s2) as [->|H12|H12]; [auto| |congruence].
  destruct (String_as_OT.compare_spec s2 s3) as [<-|H23|H23]; [| |congruence].
  - intros _ _. unfold String_as_OT.lt in H12. congruence.
  - intros _ _. pose proof (transitivity H12 H23) as H13.
    unfold String_as_OT.lt in H13. congruence.
Qed.

(** The comparison that the sort makes, in terms of the three values. *)
Lemma cle_lt_avant a b : cle_lt (cle_tri b) (cle_tri a) = false <-> avant a b.
Proof.
  unfold cle_lt, cle_tri, avant. fold (points a) (points b) (pourcent a)
    (pourcent b) (date a) (date b).
  destruct (Z.eqb_spec (- points b) (- points a)) as [Hp|Hp]; cbn [negb].
  - destruct (Qeq_bool (- pourcent b) (- pourcent a)) eqn:Hq; cbn [negb].
    + apply Qeq_bool_iff in Hq.
      assert (Hq' : (pourcent a == pourcent b)%Q) by lra.
      pose proof (date_le_lt (date a) (date b)) as Hd. unfold date_lt in Hd.
      destruct (String_as_OT.compare (date b) (date a)) eqn:Hc; split; intros H;
        try reflexivity; try discriminate.
      * right. split; [lia|]. right. split; [exact Hq'|]. apply Hd. congruence.
      * destruct H as [H|[_ [H|[_ H]]]]; [lia|lra|]. apply Hd in H. congruence.
      * right. split; [lia|]. right. split; [exact Hq'|]. apply Hd. congruence.
    + apply Qeq_bool_neq in Hq.
      destruct (Qcompare (- pourcent b) (- pourcent a)) eqn:Hc.
      * apply Qeq_alt in Hc. contradiction.
      * apply Qlt_alt in Hc. split; [discriminate|].
        intros [H|[_ [H|[H _]]]]; [lia|lra|lra].
      * apply Qgt_alt in Hc. split; [|reflexivity].
        intros _. right. split; [lia|]. left. lra.
  - destruct (Z.ltb_spec (- points b) (- points a)) as [Hl|Hl].
    + split; [discriminate|]. intros [H|[H _]]; lia.
    + split; [|reflexivity]. intros _. left. lia.
Qed.

Lemma avant_trans a b c : avant a b -> avant b c -> avant a c.
Proof.
  unfold avant.
  intros [H1|[E1 [H1|[Q1 D1]]]] [H2|[E2 [H2|[Q2 D2]]]];
    try (left; lia); right; (split; [lia|]); try (left; lra).
  right. split; [lra|]. exact (date_le_trans _ _ _ D1 D2).
Qed.

Lemma avant_total a b : avant a b \/ avant b a.
Proof.
  destruct (cle_lt (cle_tri b) (cle_tri a)) eqn:E.
  - right. apply cle_lt_avant.
    destruct (cle_lt (cle_tri a) (cle_tri b)) eqn:E'; [|reflexivity].
    exfalso. revert E E'. unfold cle_lt, cle_tri.
    fold (points a) (points b) (pourcent a) (pourcent b) (date a) (date b).
    rewrite (Z.eqb_sym (- points a)).
    destruct (Z.eqb_spec (- points b) (- points a)) as [Hp|Hp]; cbn [negb]; [|lia].
    replace (Qeq_bool (- pourcent a) (- pourcent b))
      with (Qeq_bool (- pourcent b) (- pourcent a)).
    2:{ destruct (Qeq_bool (- pourcent b) (- pourcent a)) eqn:H1,
          (Qeq_bool (- pourcent a) (- pourcent b)) eqn:H2; try reflexivity.
        - apply Qeq_bool_iff in H1. apply Qeq_bool_neq in H2. lra.
        - apply Qeq_bool_iff in H2. apply Qeq_bool_neq in H1. lra. }
    destruct (Qeq_bool (- pourcent b) (- pourcent a)); cbn [negb].
    + rewrite (date_compare_antisym (date b) (date a)).
      destruct (String_as_OT.compare (date b) (date a)); cbn; congruence.
    + destruct (Qcompare (- pourcent b) (- pourcent a)) eqn:H1; try discriminate.
      destruct (Qcompare (- pourcent a) (- pourcent b)) eqn:H2; try discriminate.
      apply Qlt_alt in H1, H2. lra.
  - left. now apply cle_lt_avant.
Qed.

Lemma inserer_permutation a l : inserer a l ≡ₚ a :: l.
Proof.
  induction l as [|b l IH]; [reflexivity|]. cbn [inserer].
  destruct (cle_lt _ _); [|reflexivity].
  rewrite IH. apply perm_swap.
Qed.

Lemma trier_permutation l : trier l ≡ₚ l.
Proof.
  induction l as [|a l IH]; [reflexivity|]. cbn [trier].
  now rewrite inserer_permutation, IH.
Qed.

Lemma inserer_classe a l :
  StronglySorted avant l -> StronglySorted avant (inserer a l).
Proof.
  induction 1 as [|b l Hl IH Hb]; cbn [inserer]; [repeat constructor|].
  destruct (cle_lt (cle_tri b) (cle_tri a)) eqn:E.
  - constructor; [exact IH|].
    rewrite inserer_permutation. constructor; [|exact Hb].
    destruct (avant_total a b) as [H|H]; [|exact H].
    apply cle_lt_avant in H. congruence.
  - apply cle_lt_avant in E. constructor; [now constructor|].
    constructor; [exact E|].
    eapply Forall_impl; [exact Hb|]. intros c Hc. exact (avant_trans _ _ _ E Hc).
Qed.

Lemma trier_classe l : StronglySorted avant (trier l).
Proof.
  induction l as [|a l IH]; cbn [trier]; [constructor|]. now apply inserer_classe.
Qed.

Lemma classe_positions l i j a b :
  StronglySorted avant l -> (i < j)%nat ->
  l !! i = Some a -> l !! j = Some b -> avant a b.
Proof.
  intros H. revert i j. induction H as [|c l Hl IH Hc]; intros i j Hij Hi Hj.
  - now rewrite lookup_nil in Hi.
  - destruct j as [|j]; [lia|]. cbn in Hj. destruct i as [|i].
    + cbn in Hi. injection Hi as ->.
      rewrite Forall_forall in Hc. apply Hc.
      eapply list_elem_of_lookup_2. exact Hj.
    + cbn in Hi. apply (IH i j); [lia|exact Hi|exact Hj].
Qed.

Lemma top_n_selection chemin n theme m :
  top_n chemin n theme m = tranche (trier (selection chemin theme m)) n.
Proof. reflexivity. Qed.

Lemma selection_journal chemin theme m s :
  s ∈ selection chemin theme m -> s ∈ charger_tous chemin m.
Proof.
  unfold selection. destruct theme as [[|c th]|]; try easy.
  intros H. now apply list_elem_of_filter in H.
Qed.

Lemma selection_theme chemin th m s :
  th <> "" -> s ∈ selection chemin (Some th) m -> e_theme s = Some th.
Proof.
  unfold selection. destruct th as [|c th]; [congruence|].
  intros _ H. now apply list_elem_of_filter in H.
Qed.

(** C6, as the code has it. [top_n] returns the slice [[:n]] of the
    selection ranked by score, then percentage, both descending, then
    timestamp ascending. For a number [n] that is not negative these are the
    first [n] entries, so at most [n]; for a negative [n] the slice leaves
    out the last [-n] entries instead. The selection is made of the entries
    of the given theme when one is given that is not the empty text; with
    the empty text, as with no theme, it is the whole log. For every [n],
    an entry that stands before another has a higher score, or the same
    score and a higher percentage, or the same of both and a timestamp that
    is not later; the entries left out rank after all those returned; and
    of two returned entries with equal score and equal percentage, the one
    with the earlier timestamp stands first. *)
Theorem top_n_classement chemin n theme m :
  let res := top_n chemin n theme m in
  let sel := selection chemin theme m in
  (0 <= n ->
     Z.of_nat (length res) <= n /\
     length res = Nat.min (Z.to_nat n) (length sel)) /\
  (n < 0 -> length res = (length sel - Z.to_nat (- n))%nat) /\
  (forall s, s ∈ res -> s ∈ charger_tous chemin m) /\
  (forall th, theme = Some th -> th <> "" ->
     forall s, s ∈ res -> e_theme s = Some th) /\
  (theme = None \/ theme = Some "" -> sel = charger_tous chemin m) /\
  (forall i j a b, (i < j)%nat -> res !! i = Some a -> res !! j = Some b ->
     avant a b) /\
  (forall i j a b, res !! i = Some a -> res !! j = Some b ->
     points a = points b -> (pourcent a == pourcent b)%Q ->
     date_lt (date a) (date b) -> (i < j)%nat) /\
  (exists reste,
     res ++ reste ≡ₚ sel /\
     forall a b, a ∈ res -> b ∈ reste -> avant a b).
Proof.
  intros res sel. subst res. rewrite top_n_selection. fold sel.
  pose proof (trier_classe sel) as Hcl.
  pose proof (trier_permutation sel) as Hperm.
  set (k := if 0 <=? n then Z.to_nat n
            else (length (trier sel) - Z.to_nat (- n))%nat).
  assert (Hk : tranche (trier sel) n = take k (trier sel))
    by (unfold tranche, k; destruct (0 <=? n); reflexivity).
  rewrite Hk.
  assert (Hin : forall s, s ∈ take k (trier sel) -> s ∈ sel).
  { intros s Hs. rewrite <- Hperm. apply list_elem_of_lookup in Hs as [i Hi].
    apply lookup_take_Some in Hi as [Hi _]. eapply list_elem_of_lookup_2, Hi. }
  assert (Hord : forall i j a b, (i < j)%nat -> take k (trier sel) !! i = Some a ->
            take k (trier sel) !! j = Some b -> avant a b).
  { intros i j a b Hij Hi Hj.
    apply lookup_take_Some in Hi as [Hi _]. apply lookup_take_Some in Hj as [Hj _].
    exact (classe_positions _ i j a b Hcl Hij Hi Hj). }
  split.
  { intros Hn. unfold k. replace (0 <=? n) with true by lia.
    split; [rewrite length_take; lia|].
    rewrite length_take, Hperm; reflexivity. }
  split.
  { intros Hn. unfold k. replace (0 <=? n) with false by lia.
    rewrite length_take, Hperm. lia. }
  split; [intros s Hs; eapply selection_journal, Hin, Hs|].
  split; [intros th -> Hth s Hs; eapply selection_theme; [exact Hth|apply Hin, Hs]|].
  split; [intros [->| ->]; reflexivity|].
  split; [exact Hord|].
  split.
  - intros i j a b Hi Hj Hp Hq Hd.
    destruct (Nat.lt_trichotomy i j) as [H|[->|H]]; [exact H| |].
    + rewrite Hi in Hj. injection Hj as ->. now apply date_lt_irrefl in Hd.
    + pose proof (Hord j i b a H Hj Hi) as [Hb|[_ [Hb|[_ Hb]]]]; [lia|lra|].
      apply date_le_lt in Hb. contradiction.
  - exists (drop k (trier sel)). split; [now rewrite take_drop|].
    intros a b Ha Hb. rewrite <- (take_drop k (trier sel)) in Hcl.
    exact (StronglySorted_app_1_elem_of _ _ _ _ _ Hcl Ha Hb).
Qed.

Lemma top_n_classement_temoin :
  0 <= 2 /\
  e_joueur_nom <$> top_n "scores.json" 2 (Some "Histoire") monde_classement
  = [Some "Eva"; Some "Luis"] /\
  Z.of_nat (length (top_n "scores.json" 2 (Some "Histoire") monde_classement)) <= 2.
Proof.
  split; [lia|]. split; [reflexivity|].
  exact (proj1 (proj1 (top_n_classement "scores.json" 2 (Some "Histoire")
                         monde_classement) ltac:(lia))).
Defined.

(** C6, as the specification words it. With the empty text as theme, which
    the ranking window passes when a question of the bank has an empty
    theme, the log is not filtered: the three entries returned are of the
    theme ["Histoire"], none of the theme asked for. And with [n = -1] the
    slice drops the last entry only: two of the three entries are
    returned. *)
Lemma top_n_theme_vide :
  e_theme <$> top_n "scores.json" 5 (Some "") monde_classement
  = [Some "Histoire"; Some "Histoire"; Some "Histoire"] /\
  ~ (forall s, s ∈ top_n "scores.json" 5 (Some "") monde_classement ->
               e_theme s = Some "") /\
  Z.of_nat (length (top_n "scores.json" (-1) None monde_classement)) = 2 /\
  ~ Z.of_nat (length (top_n "scores.json" (-1) None monde_classement)) <= -1.
Proof.
  split; [reflexivity|]. split.
  - intros H.
    assert (Hs : e_theme <$> top_n "scores.json" 5 (Some "") monde_classement
                 = [Some "Histoire"; Some "Histoire"; Some "Histoire"])
      by reflexivity.
    destruct (top_n "scores.json" 5 (Some "") monde_classement) as [|s l] eqn:E;
      [discriminate Hs|].
    injection Hs as Hs _. rewrite (H s) in Hs by (left). discriminate Hs.
  - split; [reflexivity|]. vm_compute. congruence.
Qed.

End ProprietesClassement.

(* ===================================================================== *)
(** * Further properties of the engine *)
(* ===================================================================== *)

Section ProprietesHistorique.

Import Moteur.

Implicit Types (s : Etat) (q : Question) (r : Soumission) (rep : ReponseQuestion).

Lemma jouer_snoc s rs r : jouer s (rs ++ [r]) = soumettre (jouer s rs) r.
Proof. unfold jouer. apply foldl_snoc. Qed.

(** What one call does to a reachable engine: nothing once the questions
    are used up, and otherwise the record of the current question is
    appended. *)
Lemma soumettre_cas qs nom t0 rs r :
  let s := jouer (init qs nom t0) rs in
  (Z.of_nat (length qs) <= Z.of_nat (length rs) /\ soumettre s r = s) \/
  (exists q,
     qs !! length rs = Some q /\
     index_question_actuelle s = Z.of_nat (length rs) /\
     length (historique_reponses s) = length rs /\
     soumettre s r =
     {| questions := questions s;
        nom_joueur := nom_joueur s;
        index_question_actuelle := index_question_actuelle s + 1;
        score := if verdict q (s_index r) (s_temps_ecoule r)
                 then score s + 1 else score s;
        bonnes := if verdict q (s_index r) (s_temps_ecoule r)
                  then bonnes s + 1 else bonnes s;
        mauvaises := if verdict q (s_index r) (s_temps_ecoule r)
                     then mauvaises s else mauvaises s + 1;
        temps_ecoules :=
          if verdict q (s_index r) (s_temps_ecoule r) then temps_ecoules s
          else if s_temps_ecoule r then temps_ecoules s + 1 else temps_ecoules s;
        historique_reponses :=
          historique_reponses s ++
          [{| numero := Z.of_nat (length rs) + 1;
              question := q;
              reponse_choisie := s_index r;
              est_correcte := verdict q (s_index r) (s_temps_ecoule r);
              temps_ecoule := s_temps_ecoule r;
              temps_reponse := s_temps r |}];
        horodatage_debut := horodatage_debut s;
        horodatage_fin := horodatage_fin s |}).
Proof.
  intros s.
  pose proof (jouer_indice rs qs nom t0) as Hi. fold s in Hi.
  pose proof (jouer_coherent rs _ (init_coherent qs nom t0)) as [_ Hh _ _ _].
  fold s in Hh.
  pose proof (jouer_questions rs (init qs nom t0)) as Hq. fold s in Hq.
  cbn [questions init] in Hq. unfold len in *.
  destruct (Z_lt_le_dec (Z.of_nat (length rs)) (Z.of_nat (length qs))) as [Hlt|Hge].
  - right.
    assert (Hidx : index_question_actuelle s = Z.of_nat (length rs)) by lia.
    destruct (question_actuelle_existe s) as [q E].
    { rewrite Hq. unfold len. lia. }
    exists q. split.
    { unfold obtenir_question_actuelle in E. rewrite Hq, Hidx in E.
      destruct (_ && _); [|discriminate]. now rewrite Nat2Z.id in E. }
    split; [exact Hidx|]. split; [lia|].
    unfold soumettre. rewrite (enregistrer_reponse_actuelle _ _ _ _ _ E).
    now rewrite Hidx.
  - left. split; [lia|]. unfold soumettre.
    apply enregistrer_reponse_sans_question, question_actuelle_aucune.
    rewrite Hq. unfold len. lia.
Qed.

(** The records of the history, position by position. *)
Lemma historique_position qs nom t0 rs k rep :
  historique_reponses (jouer (init qs nom t0) rs) !! k = Some rep ->
  numero rep = Z.of_nat k + 1 /\
  qs !! k = Some (question rep) /\
  exists r,
    rs !! k = Some r /\
    reponse_choisie rep = s_index r /\
    temps_ecoule rep = s_temps_ecoule r /\
    temps_reponse rep = s_temps r /\
    est_correcte rep = verdict (question rep) (s_index r) (s_temps_ecoule r).
Proof.
  revert k rep. induction rs as [|r rs IH] using rev_ind; intros k rep H.
  - cbn in H. now rewrite lookup_nil in H.
  - rewrite jouer_snoc in H.
    destruct (soumettre_cas qs nom t0 rs r) as [[_ E]|(q & Hq & Hi & Hl & E)];
      rewrite E in H; clear E.
    + destruct (IH k rep H) as (H1 & H2 & r' & H3 & H4).
      split; [exact H1|]. split; [exact H2|]. exists r'.
      split; [now apply lookup_app_l_Some|exact H4].
    + cbn [historique_reponses] in H.
      apply lookup_app_Some in H as [H|[Hk H]].
      * destruct (IH k rep H) as (H1 & H2 & r' & H3 & H4).
        split; [exact H1|]. split; [exact H2|]. exists r'.
        split; [now apply lookup_app_l_Some|exact H4].
      * rewrite Hl in Hk, H.
        destruct (k - length rs)%nat as [|n] eqn:Ek; [|now destruct n].
        assert (k = length rs) as -> by lia.
        cbn in H. injection H as <-. cbn.
        split; [reflexivity|]. split; [exact Hq|]. exists r.
        split; [|auto]. rewrite lookup_app_r by lia. now rewrite Nat.sub_diag.
Qed.

(** X1. In a session driven from its start, the record at position [k]
    of the history is the one of question [k]: its number is [k + 1], its
    question is the one at position [k], it holds what the call number
    [k] submitted, and its verdict is the one of that submission. *)
Theorem historique_aligne qs nom t0 rs k rep :
  historique_reponses (jouer (init qs nom t0) rs) !! k = Some rep ->
  numero rep = Z.of_nat k + 1 /\
  qs !! k = Some (question rep) /\
  exists r,
    rs !! k = Some r /\
    reponse_choisie rep = s_index r /\
    temps_ecoule rep = s_temps_ecoule r /\
    temps_reponse rep = s_temps r /\
    (est_correcte rep = true <->
     s_temps_ecoule r = false /\ s_index r = Some (bonne_option (question rep))).
Proof.
  intros H. destruct (historique_position _ _ _ _ _ _ H) as (H1 & H2 & r & H3 & H4 & H5 & H6 & H7).
  split; [exact H1|]. split; [exact H2|]. exists r.
  repeat (split; [assumption|]). rewrite H7. apply verdict_vrai.
Qed.

Lemma historique_aligne_temoin :
  let rs := [soumission (Some 0) false; soumission None true] in
  exists rep,
    historique_reponses (jouer session_exemple rs) !! 1%nat = Some rep /\
    numero rep = 2 /\ id (question rep) = 2.
Proof.
  eexists. split; [reflexivity|].
  pose proof (historique_aligne (questions session_exemple) "Ana" 1000%float
    [soumission (Some 0) false; soumission None true] 1 _ eq_refl) as (H1 & _).
  split; [exact H1|reflexivity].
Defined.

(** X2. The counters are those of the history: [bonnes] and [score]
    count the records judged correct, [mauvaises] the other records, and
    [temps_ecoules] the records whose time ran out. *)
Theorem compteurs_historique qs nom t0 rs :
  let s := jouer (init qs nom t0) rs in
  let h := historique_reponses s in
  bonnes s = Z.of_nat (length (filter (fun rep => est_correcte rep = true) h)) /\
  score s = Z.of_nat (length (filter (fun rep => est_correcte rep = true) h)) /\
  mauvaises s = Z.of_nat (length (filter (fun rep => est_correcte rep = false) h)) /\
  temps_ecoules s = Z.of_nat (length (filter (fun rep => temps_ecoule rep = true) h)).
Proof.
  induction rs as [|r rs IH] using rev_ind; [now cbn|].
  rewrite jouer_snoc.
  destruct (soumettre_cas qs nom t0 rs r) as [[_ E]|(q & Hq & Hi & Hl & E)];
    rewrite E; clear E; [exact IH|].
  cbv zeta in IH. destruct IH as (H1 & H2 & H3 & H4).
  cbn [bonnes score mauvaises temps_ecoules historique_reponses].
  rewrite !filter_app, !length_app, !filter_cons, !filter_nil.
  cbn [est_correcte temps_ecoule].
  assert (Hv : verdict q (s_index r) (s_temps_ecoule r) = true ->
               s_temps_ecoule r = false) by (intros Hv; now apply verdict_vrai in Hv).
  destruct (verdict q (s_index r) (s_temps_ecoule r)) eqn:V.
  - rewrite (Hv eq_refl).
    repeat case_decide; try congruence; cbn [length]; lia.
  - destruct (s_temps_ecoule r);
      repeat case_decide; try congruence; cbn [length]; lia.
Qed.

(** X3. In a session driven from its start, the engine is finished
    exactly when it has no current question; while it is not, the
    current question is the one at the position of the index, and its
    number lies between 1 and the number of questions. *)
Theorem termine_ou_question qs nom t0 rs :
  let s := jouer (init qs nom t0) rs in
  (est_termine s = true <-> obtenir_question_actuelle s = None) /\
  (est_termine s = false ->
   exists q,
     obtenir_question_actuelle s = Some q /\
     qs !! Z.to_nat (obtenir_numero_question s - 1) = Some q /\
     1 <= obtenir_numero_question s <= obtenir_total_questions s).
Proof.
  intros s.
  pose proof (jouer_coherent rs _ (init_coherent qs nom t0)) as [Hc _ _ _ _].
  fold s in Hc.
  pose proof (jouer_questions rs (init qs nom t0)) as Hq. fold s in Hq.
  cbn [questions init] in Hq.
  unfold est_termine, obtenir_numero_question, obtenir_total_questions.
  split.
  - split.
    + intros H. apply question_actuelle_aucune. lia.
    + intros H. destruct (Z.leb_spec (len (questions s)) (index_question_actuelle s))
        as [_|Hlt]; [reflexivity|].
      destruct (question_actuelle_existe s) as [q E]; [lia|]. congruence.
  - intros H. destruct (question_actuelle_existe s) as [q E]; [lia|].
    exists q. split; [exact E|]. split; [|lia].
    unfold obtenir_question_actuelle in E. destruct (_ && _); [|discriminate].
    rewrite Hq in E. now replace (index_question_actuelle s + 1 - 1)
      with (index_question_actuelle s) by lia.
Qed.

End ProprietesHistorique.

Section ProprietesAffichage.

Import Moteur.

Lemma jouer_bonnes_positif qs nom t0 rs : 0 <= bonnes (jouer (init qs nom t0) rs).
Proof.
  induction rs as [|r rs IH] using rev_ind; [now cbn|].
  rewrite jouer_snoc.
  destruct (soumettre_cas qs nom t0 rs r) as [[_ E]|(q & _ & _ & _ & E)];
    rewrite E; [exact IH|].
  cbn [bonnes]. destruct (verdict _ _ _); lia.
Qed.

(** X4. The numbers drawn for the results of a session: the three bars
    (correct, incorrect without the timeouts, timeouts) are not negative
    and add up to the number of answers given, which is the number of
    questions once the session is finished; the sectors of the pie are
    the bars that are not zero, so they add up to the same number. *)
Theorem graphique_repartition qs nom t0 rs h :
  let s := jouer (init qs nom t0) rs in
  let r := (obtenir_resultats s h).1 in
  let secteurs := (Graphique.donnees_graphique r).1 in
  let barres := (Graphique.donnees_graphique r).2 in
  barres = [r_bonnes r; r_mauvaises r - r_temps_ecoules r; r_temps_ecoules r] /\
  Forall (fun v => 0 <= v) barres /\
  sum barres = index_question_actuelle s /\
  Graphique.taille <$> secteurs = filter (fun v => v <> 0) barres /\
  sum (Graphique.taille <$> secteurs) = sum barres /\
  (est_termine s = true -> sum barres = nombre_questions r).
Proof.
  intros s r secteurs barres.
  pose proof (jouer_coherent rs _ (init_coherent qs nom t0)) as [H1 _ H3 _ H5].
  pose proof (jouer_bonnes_positif qs nom t0 rs) as Hb.
  fold s in H1, H3, H5, Hb.
  subst secteurs barres r. unfold Graphique.donnees_graphique.
  cbn [obtenir_resultats fst snd r_bonnes r_mauvaises r_temps_ecoules nombre_questions].
  set (b := bonnes s) in *. set (m := mauvaises s) in *.
  set (e := temps_ecoules s) in *.
  split; [reflexivity|]. split; [repeat constructor; lia|].
  split; [unfold sum; cbn; lia|].
  assert (Hs : forall x y z : Z,
            sum (filter (fun v => v <> 0) [x; y; z]) = sum [x; y; z]).
  { intros x y z. rewrite !filter_cons, filter_nil.
    repeat case_decide; unfold sum; cbn; lia. }
  split.
  - rewrite !filter_cons, filter_nil.
    destruct (Z.ltb_spec 0 b), (Z.ltb_spec 0 (m - e)), (Z.ltb_spec 0 e);
      repeat case_decide; try lia; reflexivity.
  - split.
    + rewrite <- (Hs b (m - e) e). f_equal.
      rewrite !filter_cons, filter_nil.
      destruct (Z.ltb_spec 0 b), (Z.ltb_spec 0 (m - e)), (Z.ltb_spec 0 e);
        repeat case_decide; try lia; reflexivity.
    + intros Ht. unfold est_termine in Ht. unfold sum. cbn. lia.
Qed.

(** X5. For the sessions that sampling allows, of 1 to 10 questions, the
    percentage lies between 0 and 100, is 0 for no correct answer and 100
    for all of them, and grows strictly with the number of correct
    answers. *)
Theorem pourcentage_borne_croissant (total bonnes : Z) :
  1 <= total <= Banque.NOMBRE_QUESTIONS_MAX ->
  0 <= bonnes <= total ->
  PrimFloat.leb 0 (calcul_pourcentage bonnes total) = true /\
  PrimFloat.leb (calcul_pourcentage bonnes total) 100 = true /\
  calcul_pourcentage 0 total = 0%float /\
  calcul_pourcentage total total = 100%float /\
  (bonnes < total ->
   PrimFloat.ltb (calcul_pourcentage bonnes total)
                 (calcul_pourcentage (bonnes + 1) total) = true).
Proof.
  unfold Banque.NOMBRE_QUESTIONS_MAX. intros Ht Hb.
  assert (Ht' : total ∈ seqZ 1 10) by (apply elem_of_seqZ; lia).
  vm_compute in Ht'.
  repeat (apply elem_of_cons in Ht' as [->|Ht']);
    [..|now apply elem_of_nil in Ht'];
    (match goal with
     | |- context [calcul_pourcentage bonnes ?t] =>
         assert (Hb' : bonnes ∈ seqZ 0 (t + 1)) by (apply elem_of_seqZ; lia)
     end);
    vm_compute in Hb';
    repeat (apply elem_of_cons in Hb' as [->|Hb']);
    try (now apply elem_of_nil in Hb');
    repeat split; try (intros _); vm_compute; reflexivity.
Qed.

Lemma pourcentage_borne_croissant_temoin :
  1 <= 3 <= Banque.NOMBRE_QUESTIONS_MAX /\ 0 <= 1 <= 3 /\
  PrimFloat.ltb (calcul_pourcentage 1 3) (calcul_pourcentage (1 + 1) 3) = true.
Proof.
  assert (H1 : 1 <= 3 <= Banque.NOMBRE_QUESTIONS_MAX)
    by (unfold Banque.NOMBRE_QUESTIONS_MAX; lia).
  assert (H2 : 0 <= 1 <= 3) by lia.
  split; [exact H1|]. split; [exact H2|].
  apply (pourcentage_borne_croissant 3 1 H1 H2). lia.
Defined.

Import Reponse.

(** X6. The texts of the review, for the records of a session over
    questions whose correct index is in range: the text of the correct
    answer is the option at that index, never the text for an unknown
    one; a record whose time ran out shows the timeout text; a record
    judged correct shows the text of the correct answer; a record in time
    with no index shows the text for no answer. *)
Theorem textes_historique qs nom t0 rs rep :
  Forall Banque.question_valide qs ->
  rep ∈ historique_reponses (jouer (init qs nom t0) rs) ->
  (exists v,
     options (question rep) !! Z.to_nat (bonne_option (question rep)) = Some v /\
     obtenir_texte_bonne_reponse rep = Choix v) /\
  (temps_ecoule rep = true -> obtenir_texte_reponse rep = TempsEcoule) /\
  (est_correcte rep = true ->
   obtenir_texte_reponse rep = obtenir_texte_bonne_reponse rep) /\
  (temps_ecoule rep = false -> reponse_choisie rep = None ->
   obtenir_texte_reponse rep = AucuneReponse).
Proof.
  intros Hval Hin. apply list_elem_of_lookup in Hin as [k Hk].
  destruct (historique_position _ _ _ _ _ _ Hk)
    as (_ & Hq & r & _ & Hc & He & _ & Hv).
  assert (Hvalide : Banque.question_valide (question rep)).
  { rewrite Forall_forall in Hval. apply Hval.
    eapply list_elem_of_lookup_2, Hq. }
  unfold Banque.question_valide in Hvalide.
  destruct (lookup_lt_is_Some_2 (options (question rep))
              (Z.to_nat (bonne_option (question rep))) ltac:(lia)) as [v Ev].
  assert (Hbonne : obtenir_texte_bonne_reponse rep = Choix v).
  { unfold obtenir_texte_bonne_reponse, item.
    replace (_ && _) with true by lia. now rewrite Ev. }
  split; [eauto|]. split; [|split].
  - intros H. unfold obtenir_texte_reponse. now rewrite H.
  - intros H. rewrite Hv in H. apply verdict_vrai in H as [H1 H2].
    rewrite Hbonne. unfold obtenir_texte_reponse, item.
    rewrite He, H1, Hc, H2.
    replace (_ && _) with true by lia. now rewrite Ev.
  - intros H1 H2. unfold obtenir_texte_reponse. now rewrite H1, H2.
Qed.

Lemma textes_historique_temoin :
  let rs := [soumission (Some 0) false; soumission None true] in
  Forall Banque.question_valide (questions session_exemple) /\
  exists rep,
    rep ∈ historique_reponses (jouer session_exemple rs) /\
    obtenir_texte_reponse rep = TempsEcoule.
Proof.
  assert (H : Forall Banque.question_valide (questions session_exemple)).
  { repeat constructor; cbn; lia. }
  split; [exact H|].
  assert (Hin :
    {| numero := 2; question := question_exemple 2 2 "Histoire";
       reponse_choisie := None; est_correcte := false; temps_ecoule := true;
       temps_reponse := 5 |}
    ∈ historique_reponses
        (jouer session_exemple [soumission (Some 0) false; soumission None true])).
  { apply list_elem_of_lookup. exists 1%nat. reflexivity. }
  eexists. split; [exact Hin|].
  exact (proj1 (proj2 (textes_historique (questions session_exemple) "Ana"
    1000%float [soumission (Some 0) false; soumission None true] _ H Hin)) eq_refl).
Defined.

End ProprietesAffichage.

(* ===================================================================== *)
(** * Further properties of [random] and of sorting *)
(* ===================================================================== *)

Section ProprietesTirage.

Import Random.

Context {A : Type}.
Implicit Types (l pool population : list A) (g : Generateur).

Lemma tirage_retire pool j n (a d : A) :
  (j < n <= length pool)%nat ->
  pool !! j = Some a -> pool !! (n - 1)%nat = Some d ->
  a :: take (n - 1) (<[j := d]> pool) ≡ₚ take n pool.
Proof.
  intros Hj Ha Hd.
  replace n with (S (n - 1)) at 2 by lia.
  rewrite (take_S_r pool (n - 1) d Hd).
  destruct (decide (j = n - 1)%nat) as [->|Hne].
  - rewrite take_insert_ge by lia.
    assert (a = d) as -> by congruence.
    now rewrite Permutation_cons_append.
  - rewrite take_insert_lt by lia.
    rewrite (insert_permute (take (n - 1) pool) j d a).
    + now rewrite Permutation_cons_append.
    + apply lookup_take_Some. split; [exact Ha|lia].
Qed.

Lemma sample_boucle_extrait k n pool g r g' :
  (k <= n <= length pool)%nat ->
  sample_boucle k n pool g = Retour (r, g') ->
  exists reste, r ++ reste ≡ₚ take n pool.
Proof.
  revert n pool g r g'. induction k as [|k IH]; intros n pool g r g' Hn H.
  - cbn in H. injection H as <- <-. now exists (take n pool).
  - cbn [sample_boucle] in H.
    pose proof (randbelow_lt n g ltac:(lia)) as Hj.
    destruct (randbelow n g) as [j g1]. cbn in Hj.
    destruct (pool !! j) as [a|] eqn:Ea; [|discriminate].
    destruct (pool !! (n - 1)%nat) as [d|] eqn:Ed; [|discriminate].
    destruct (sample_boucle k (n - 1) (<[j := d]> pool) g1) as [[r1 g2]|e] eqn:E;
      [|discriminate].
    cbn in H. injection H as <- <-.
    assert (Hn' : (k <= n - 1 <= length (<[j := d]> pool))%nat)
      by (rewrite length_insert; lia).
    destruct (IH _ _ _ _ _ Hn' E) as [reste Hr].
    exists reste. cbn. rewrite Hr. apply tirage_retire; [lia|exact Ea|exact Ed].
Qed.

(** The items that [random.sample] returns are taken from the
    population, each position at most once. *)
Lemma sample_extrait population (k : Z) g r g' :
  sample population k g = Retour (r, g') ->
  exists reste, r ++ reste ≡ₚ population.
Proof.
  unfold sample. destruct (_ && _) eqn:E; [|discriminate].
  intros H. apply andb_true_iff in E as [E1 E2].
  assert (Hk : (Z.to_nat k <= length population <= length population)%nat) by lia.
  destruct (sample_boucle_extrait _ _ _ _ _ _ Hk H) as [reste Hr].
  exists reste. now rewrite Hr, firstn_all.
Qed.

End ProprietesTirage.

Section ProprietesTri.

#[local] Instance str_le_total : Total str_le.
Proof.
  intros a b. unfold str_le. rewrite (date_compare_antisym a b).
  destruct (String_as_OT.compare a b); cbn; auto.
Qed.

#[local] Instance str_le_transitif : Transitive str_le.
Proof. intros a b c. exact (date_le_trans a b c). Qed.

Lemma str_le_different a b : str_le a b -> a <> b -> String_as_OT.lt a b.
Proof.
  unfold str_le. intros H Hne.
  destruct (String_as_OT.compare_spec a b) as [E|Hlt|Hgt];
    [contradiction|exact Hlt|congruence].
Qed.

(** On texts that are all different, [sorted] gives the same texts in
    strictly ascending order. *)
Lemma sorted_croissant (l : list string) :
  NoDup l -> StronglySorted String_as_OT.lt (sorted l) /\ sorted l ≡ₚ l.
Proof.
  intros Hnd. unfold sorted.
  pose proof (merge_sort_Permutation str_le l) as Hp.
  split; [|exact Hp].
  assert (Hs : StronglySorted str_le (merge_sort str_le l))
    by (apply Sorted_StronglySorted; [apply _|apply Sorted_merge_sort; apply _]).
  rewrite <- Hp in Hnd. clear Hp.
  induction Hs as [|x m Hm IH Hx]; [constructor|].
  apply NoDup_cons in Hnd as [Hx' Hnd].
  constructor; [now apply IH|].
  rewrite Forall_forall in *. intros y Hy.
  apply str_le_different; [now apply Hx|]. intros ->. contradiction.
Qed.

End ProprietesTri.

(* ===================================================================== *)
(** * Further properties of the question bank *)
(* ===================================================================== *)

Section ProprietesFiltre.

Import Banque.

Implicit Types (b : Objet) (t : Tas) (g : Random.Generateur)
  (themes niveaux : option (list string)).

Lemma filter_tout {A} (P : A -> Prop) `{!forall x, Decision (P x)} (l : list A) :
  (forall x, P x) -> filter P l = l.
Proof.
  intros HP. induction l as [|x l IH]; [reflexivity|].
  rewrite filter_cons, IH. case_decide as Hx; [reflexivity|].
  destruct (Hx (HP x)).
Qed.

Lemma filter_aucun {A} (P : A -> Prop) `{!forall x, Decision (P x)} (l : list A) :
  (forall x, x ∈ l -> ~ P x) -> filter P l = [].
Proof.
  intros HP. induction l as [|x l IH]; [reflexivity|].
  rewrite filter_cons. case_decide as Hx.
  - destruct (HP x); [constructor|exact Hx].
  - apply IH. intros y Hy. apply HP. now constructor.
Qed.

(** X7. [filtrer] returns the questions of the bank, in their order,
    whose theme is among the given themes and whose level is among the
    given levels, a filter that is absent or empty letting every question
    through. It changes no list object: the objects of before the call
    are all there, with their content. With no active filter the list
    returned is the bank's own list object; otherwise it is a new object. *)
Theorem filtrer_selection b themes niveaux t :
  let a := (filtrer b themes niveaux t).1 in
  let t' := (filtrer b themes niveaux t).2 in
  lire t' a =
    filter (fun q => (actif themes = [] \/ theme q ∈ actif themes) /\
                     (actif niveaux = [] \/ niveau q ∈ actif niveaux))
           (lire t (questions b)) /\
  t `prefix_of` t' /\
  (actif themes = [] -> actif niveaux = [] -> a = questions b /\ t' = t) /\
  (actif themes <> [] \/ actif niveaux <> [] -> (length t <= a)%nat).
Proof.
  unfold filtrer, allouer.
  destruct (actif themes) as [|th ths], (actif niveaux) as [|nv nvs]; cbn [fst snd].
  - split; [|split; [reflexivity|split; [auto|intros [H|H]; congruence]]].
    symmetry. apply filter_tout. auto.
  - rewrite lire_allouer.
    split; [|split; [now apply prefix_app_r|split; [discriminate|lia]]].
    apply list_filter_iff. intros q. split; [auto|].
    intros [_ [H|H]]; [discriminate|exact H].
  - rewrite lire_allouer.
    split; [|split; [now apply prefix_app_r|split; [discriminate|lia]]].
    apply list_filter_iff. intros q. split; [auto|].
    intros [[H|H] _]; [discriminate|exact H].
  - rewrite !lire_allouer.
    split; [|split; [|split; [discriminate|rewrite length_app; lia]]].
    + rewrite list_filter_filter. apply list_filter_iff. intros q. split.
      * intros [H1 H2]. auto.
      * intros [[H|H] [H'|H']]; try discriminate. auto.
    + rewrite <- app_assoc. now apply prefix_app_r.
Qed.

(** X8. When the selection holds more distinct questions than
    [min(nombre, 10)] and [nombre] is not negative,
    [echantillonner_questions] returns exactly [min(nombre, 10)]
    questions, all different and all taken from the selection, and
    shuffles nothing: the list objects are those that [filtrer] left, so
    the bank's list keeps its order. *)
Theorem echantillonner_grande_reserve b nombre themes t g :
  let reserve := reserve_filtree b themes t in
  NoDup reserve ->
  0 <= nombre ->
  Z.min nombre NOMBRE_QUESTIONS_MAX < Z.of_nat (length reserve) ->
  let appel := echantillonner_questions b nombre themes t g in
  (exists l,
     appel.1.1 = Retour l /\
     Z.of_nat (length l) = Z.min nombre NOMBRE_QUESTIONS_MAX /\
     NoDup l /\
     (forall q, q ∈ l -> q ∈ reserve)) /\
  appel.1.2 = (filtrer b themes None t).2 /\
  lire appel.1.2 (questions b) = lire (filtrer b themes None t).2 (questions b).
Proof.
  intros reserve Hnd Hpos Hgrand appel. subst appel.
  rewrite echantillonner_questions_branches. fold reserve.
  set (n := Z.min nombre NOMBRE_QUESTIONS_MAX) in *.
  assert (Hn : 0 <= n) by (subst n; unfold NOMBRE_QUESTIONS_MAX; lia).
  rewrite bool_decide_eq_false_2
    by (intros E; rewrite E in Hgrand; cbn in Hgrand; lia).
  replace (Z.of_nat (length reserve) <=? n) with false by lia.
  destruct (sample_longueur reserve n g) as (r & g' & E & Hr); [lia|].
  rewrite E. cbn [fst snd].
  destruct (sample_extrait _ _ _ _ _ E) as [reste Hp].
  split; [|split; reflexivity].
  exists r. split; [reflexivity|]. split; [exact Hr|].
  rewrite <- Hp in Hnd. apply NoDup_app in Hnd as (Hnd & _ & _).
  split; [exact Hnd|].
  intros q Hq. rewrite <- Hp. apply elem_of_app. now left.
Qed.

Lemma echantillonner_grande_reserve_temoin :
  NoDup (reserve_filtree banque_exemple None tas_exemple) /\
  0 <= 2 /\
  Z.min 2 NOMBRE_QUESTIONS_MAX
    < Z.of_nat (length (reserve_filtree banque_exemple None tas_exemple)) /\
  (echantillonner_questions banque_exemple 2 None tas_exemple [1; 0]%nat).1.2
  = tas_exemple.
Proof.
  assert (H : NoDup (reserve_filtree banque_exemple None tas_exemple)).
  { vm_compute. repeat constructor; rewrite ?elem_of_cons, ?elem_of_nil;
      intros H; repeat destruct H as [H|H]; try discriminate H; exact H. }
  assert (H2 : Z.min 2 NOMBRE_QUESTIONS_MAX
               < Z.of_nat (length (reserve_filtree banque_exemple None tas_exemple)))
    by (vm_compute; reflexivity).
  split; [exact H|]. split; [lia|]. split; [exact H2|].
  exact (proj1 (proj2 (echantillonner_grande_reserve banque_exemple 2 None
                         tas_exemple [1; 0]%nat H ltac:(lia) H2))).
Defined.

(** X9. [lister_themes] gives the themes of the bank's questions, each
    once, in strictly ascending order. *)
Theorem lister_themes_trie b t :
  StronglySorted String_as_OT.lt (lister_themes b t) /\
  (forall th, th ∈ lister_themes b t <->
              exists q, q ∈ lire t (questions b) /\ theme q = th).
Proof.
  unfold lister_themes.
  set (themes := list_to_set (theme <$> lire t (questions b)) : gset string).
  destruct (sorted_croissant (elements themes) (NoDup_elements themes)) as [Hs Hp].
  split; [exact Hs|].
  intros th. rewrite Hp, elem_of_elements. subst themes.
  rewrite elem_of_list_to_set, list_elem_of_fmap. split.
  - intros (q & -> & Hq). eauto.
  - intros (q & Hq & <-). eauto.
Qed.

End ProprietesFiltre.

Section ProprietesDossier.

Import Banque.

Variable repr : JSON -> string.
Variable int_de_chaine : string -> option Z.

Abbreviation _charger_fichier := (_charger_fichier repr int_de_chaine).
Abbreviation charger_fichiers := (charger_fichiers repr int_de_chaine).
Abbreviation _charger_questions := (_charger_questions repr int_de_chaine).
Abbreviation questions_du_fichier := (questions_du_fichier repr int_de_chaine).
Abbreviation journal_du_fichier := (journal_du_fichier repr int_de_chaine).

Lemma _charger_fichier_traitable chemin lu c :
  fichier_traitable lu ->
  _charger_fichier chemin lu c =
  ({| charge := charge c ++ questions_du_fichier lu;
      journal := journal c ++ journal_du_fichier chemin lu |}, None).
Proof.
  destruct c as [ch jo]. destruct lu as [e|donnees]; cbn [fichier_traitable].
  - intros He. cbn. rewrite He. cbn. now rewrite app_nil_r.
  - destruct donnees; try (intros _; cbn; now rewrite app_nil_r).
    intros H. cbn [Banque._charger_fichier].
    now rewrite (charger_elements_enregistrements repr int_de_chaine _ _ H).
Qed.

Lemma charger_fichiers_traitables fichiers c :
  Forall (fun f => fichier_traitable f.2) fichiers ->
  charger_fichiers fichiers c =
  ({| charge := charge c ++ concat ((fun f => questions_du_fichier f.2) <$> fichiers);
      journal := journal c ++ concat ((fun f => journal_du_fichier f.1 f.2) <$> fichiers) |},
   None).
Proof.
  intros H. revert c. induction H as [|[chemin lu] reste Hf _ IH]; intros c.
  - destruct c. cbn. now rewrite !app_nil_r.
  - cbn [Banque.charger_fichiers]. cbn [snd] in Hf.
    rewrite (_charger_fichier_traitable chemin lu c Hf), IH.
    cbn [charge journal fmap list_fmap concat fst snd].
    now rewrite <- !app_assoc.
Qed.

Lemma charger_fichiers_app f1 f2 c :
  charger_fichiers (f1 ++ f2) c =
  match charger_fichiers f1 c with
  | (c', None) => charger_fichiers f2 c'
  | r => r
  end.
Proof.
  revert c. induction f1 as [|[chemin lu] f1 IH]; intros c; [reflexivity|].
  cbn [app Banque.charger_fichiers].
  destruct (_charger_fichier chemin lu c) as [c' [e|]]; [reflexivity|apply IH].
Qed.


(** X11. The bank that the constructor builds holds the questions that
    loading gave, all with their correct index in range. Sampling it
    with themes that none of its questions has, or when it holds no
    question at all, returns the empty list. *)
Theorem banque_construite dossier src t b t' j :
  init repr int_de_chaine dossier src t = (Retour (b, t'), j) ->
  lire t' (questions b) = charge (_charger_questions src vide).1 /\
  Forall question_valide (lire t' (questions b)) /\
  (forall a, (a < length t)%nat -> lire t' a = lire t a) /\
  (forall nombre themes g,
     (lire t' (questions b) = [] \/
      (actif themes <> [] /\
       forall q, q ∈ lire t' (questions b) -> theme q ∉ actif themes)) ->
     (echantillonner_questions b nombre themes t' g).1.1 = Retour []).
Proof.
  unfold init.
  pose proof (_charger_questions_valide repr int_de_chaine src vide
                ltac:(constructor)) as Hv.
  destruct (_charger_questions src vide) as [c [e|]]; [discriminate|].
  cbn [fst] in *. unfold allouer. intros [= <- <- <-]. cbn [questions].
  rewrite lire_allouer.
  split; [reflexivity|]. split; [exact Hv|].
  split; [intros a Ha; now apply lire_allouer_ancien|].
  intros nombre themes g H.
  rewrite echantillonner_questions_branches.
  rewrite bool_decide_eq_true_2; [reflexivity|].
  unfold reserve_filtree. cbn [questions]. rewrite lire_allouer.
  destruct H as [H|[Hact H]].
  - rewrite H. now destruct (actif themes).
  - destruct (actif themes) as [|th ths]; [congruence|].
    apply filter_aucun. exact H.
Qed.

End ProprietesDossier.

Lemma banque_construite_temoin :
  exists b t' j,
    Banque.init repr_exemple int_exemple "questions"
      (Banque.FichierUnique (Banque.Decode (JList fichier_exemple))) []
    = (Retour (b, t'), j) /\
    Forall Banque.question_valide (Banque.lire t' (Banque.questions b)).
Proof.
  eexists _, _, _. split; [reflexivity|].
  exact (proj1 (proj2 (banque_construite repr_exemple int_exemple "questions"
    (Banque.FichierUnique (Banque.Decode (JList fichier_exemple))) [] _ _ _ eq_refl))).
Defined.

(* ===================================================================== *)
(** * Further properties of the score store *)
(* ===================================================================== *)

Section ProprietesJournal.

Import Stockage.

Implicit Types (m : Monde) (e : Entree) (f : gmap string Contenu).

(** X12. Building the store never changes what the log reads as, nor
    any other file. An existing file is left as it is; a missing one is
    created holding the empty log; when the creation fails the [IOError]
    is printed, not raised, and the log still reads as empty. *)
Theorem init_stockage chemin (c : Creation) f (lignes : list Message) :
  let r := init chemin c f in
  charger_tous chemin {| fichiers := r.1; sortie := lignes |}
  = charger_tous chemin {| fichiers := f; sortie := lignes |} /\
  (forall autre, autre <> chemin -> r.1 !! autre = f !! autre) /\
  (is_Some (f !! chemin) -> r = (f, None)) /\
  (f !! chemin = None -> c = CreationFaite ->
   r.1 !! chemin = Some (Valide []) /\ r.2 = None) /\
  (r.2 = Some IOError <-> f !! chemin = None /\ c <> CreationFaite).
Proof.
  unfold init, charger_tous. cbn [fichiers].
  destruct (f !! chemin) as [x|] eqn:E.
  - cbn [fst snd]. rewrite E.
    split; [reflexivity|]. split; [reflexivity|]. split; [reflexivity|].
    split; [discriminate|]. split; [discriminate|intros [H _]; discriminate].
  - assert (Hs : ~ is_Some (@None Contenu)) by (intros [? ?]; discriminate).
    destruct c; cbn [_creer_fichier_vide fst snd].
    + rewrite lookup_insert_eq.
      split; [reflexivity|].
      split; [intros autre Ha; now rewrite lookup_insert_ne by congruence|].
      split; [intros H; now destruct Hs|].
      split; [auto|]. split; [discriminate|intros [_ H]; congruence].
    + rewrite E.
      split; [reflexivity|]. split; [reflexivity|].
      split; [intros H; now destruct Hs|].
      split; [discriminate|]. split; [intros _; split; [reflexivity|discriminate]|auto].
    + rewrite lookup_insert_eq.
      split; [reflexivity|].
      split; [intros autre Ha; now rewrite lookup_insert_ne by congruence|].
      split; [intros H; now destruct Hs|].
      split; [discriminate|]. split; [intros _; split; [reflexivity|discriminate]|auto].
Qed.

Lemma charger_apres_sauvegarde chemin e (p : Panne) m :
  charger_tous chemin (sauvegarder_score chemin e p m).2 =
  charger_tous chemin m ++ match p with SansPanne => [e] | _ => [] end.
Proof.
  pose proof (chemin_temporaire_distinct chemin) as Hd.
  unfold sauvegarder_score.
  destruct p; cbn [ecrire_puis_remplacer fst snd];
    unfold charger_tous at 1; cbn [fichiers];
    rewrite ?lookup_insert_eq, ?lookup_insert_ne by exact Hd;
    rewrite ?app_nil_r; reflexivity.
Qed.

(** X13. After a series of calls of [sauvegarder_score], the log holds
    what it held before, followed by the entries whose write did not
    fail, in the order of the calls; an entry whose write failed is not
    in it. A missing or unreadable file counts as an empty log. *)
Theorem sauvegardes_successives chemin (l : list (Entree * Panne)) m :
  charger_tous chemin (sauvegarder_scores chemin l m) =
  charger_tous chemin m ++
  omap (fun ep => match ep.2 with SansPanne => Some ep.1 | _ => None end) l.
Proof.
  induction l as [|[e p] l IH] using rev_ind; [now rewrite app_nil_r|].
  unfold sauvegarder_scores in *. rewrite foldl_snoc. cbn [fst snd].
  rewrite charger_apres_sauvegarde, IH, omap_app, <- app_assoc.
  f_equal. f_equal. cbn. now destruct p.
Qed.

(** X14. [obtenir_themes_depuis_scores] gives the themes of the log that
    are not the empty text, each once, in strictly ascending order. *)
Theorem themes_des_scores chemin m :
  StronglySorted String_as_OT.lt (obtenir_themes_depuis_scores chemin m) /\
  (forall th, th ∈ obtenir_themes_depuis_scores chemin m <->
              th <> "" /\ exists s, s ∈ charger_tous chemin m /\ e_theme s = Some th).
Proof.
  unfold obtenir_themes_depuis_scores.
  set (themes := list_to_set _ : gset string).
  destruct (sorted_croissant (elements themes) (NoDup_elements themes)) as [Hs Hp].
  split; [exact Hs|].
  intros th. rewrite Hp, elem_of_elements. subst themes.
  rewrite elem_of_list_to_set, list_elem_of_omap. split.
  - intros (s & Hin & H). destruct (e_theme s) as [[|c th']|] eqn:E; try discriminate.
    injection H as <-. split; [discriminate|]. eauto.
  - intros (Hne & s & Hin & E). exists s. split; [exact Hin|].
    rewrite E. destruct th; [congruence|reflexivity].
Qed.

Lemma sum_uns {A} (l : list A) : sum ((fun _ => 1) <$> l) = Z.of_nat (length l).
Proof.
  unfold sum. induction l as [|x l IH] using rev_ind; [reflexivity|].
  rewrite fmap_app, foldl_app, IH, length_app. cbn. lia.
Qed.

(** X15. [compter_occurrences_joueur] is the number of entries whose
    player name is the given name up to the case of the letters: it lies
    between 0 and the size of the log, is the same for two names that
    differ by case only, and a successful save adds one to it exactly
    when the saved entry bears that name. *)
Theorem occurrences_joueur chemin nom m :
  compter_occurrences_joueur chemin nom m
  = Z.of_nat (length (filter (meme_joueur nom) (charger_tous chemin m))) /\
  0 <= compter_occurrences_joueur chemin nom m
    <= Z.of_nat (length (charger_tous chemin m)) /\
  (forall nom', lower nom' = lower nom ->
     compter_occurrences_joueur chemin nom' m
     = compter_occurrences_joueur chemin nom m) /\
  (forall e,
     compter_occurrences_joueur chemin nom
       (sauvegarder_score chemin e SansPanne m).2
     = compter_occurrences_joueur chemin nom m
       + (if decide (meme_joueur nom e) then 1 else 0)).
Proof.
  unfold compter_occurrences_joueur. rewrite sum_uns.
  split; [reflexivity|]. split; [|split].
  - pose proof (length_filter (meme_joueur nom) (charger_tous chemin m)). lia.
  - intros nom' H. rewrite sum_uns. f_equal. f_equal.
    apply list_filter_iff. intros s. unfold meme_joueur. now rewrite H.
  - intros e. rewrite sum_uns, charger_apres_sauvegarde, filter_app, length_app.
    rewrite filter_cons, filter_nil. case_decide; cbn; lia.
Qed.

End ProprietesJournal.

Section ProprietesStatistiques.

Import Stockage.

Variable moyenne_arrondie : list Q -> Q.

Abbreviation obtenir_stats_joueur := (obtenir_stats_joueur moyenne_arrondie).

Lemma max_score_premier x (l : list Entree) :
  exists l1 l2,
    x :: l = l1 ++ max_score x l :: l2 /\
    (forall y, y ∈ l1 -> points y < points (max_score x l)) /\
    (forall y, y ∈ l2 -> points y <= points (max_score x l)).
Proof.
  unfold max_score. induction l as [|z l IH] using rev_ind.
  - exists [], []. cbn. split; [reflexivity|]. split; intros y Hy; now apply elem_of_nil in Hy.
  - destruct IH as (l1 & l2 & E & H1 & H2). rewrite foldl_snoc.
    set (mx := foldl _ x l) in *.
    destruct (Z.ltb_spec (points mx) (points z)) as [Hlt|Hge].
    + exists (l1 ++ mx :: l2), []. split; [|split].
      * now rewrite app_comm_cons, E.
      * intros y Hy. apply elem_of_app in Hy as [Hy|Hy]; [specialize (H1 y Hy); lia|].
        apply elem_of_cons in Hy as [->|Hy]; [lia|]. specialize (H2 y Hy). lia.
      * intros y Hy. now apply elem_of_nil in Hy.
    + exists l1, (l2 ++ [z]). split; [|split].
      * rewrite app_comm_cons, E, <- app_assoc. reflexivity.
      * exact H1.
      * intros y Hy. apply elem_of_app in Hy as [Hy|Hy]; [now apply H2|].
        apply list_elem_of_singleton in Hy as ->. exact Hge.
Qed.

(** X16. [obtenir_stats_joueur] answers that there is no game exactly
    when [compter_occurrences_joueur] is 0. Otherwise the number of games
    is that count; the best score is the highest score among the entries
    of the player, and the percentage given with it is that of the first
    of these entries, in the order of the log, that reaches it. *)
Theorem stats_joueur chemin nom m :
  (obtenir_stats_joueur chemin nom m = AucunePartie <->
   compter_occurrences_joueur chemin nom m = 0) /\
  (forall parties meilleur_score meilleur_pourcentage moyenne,
     obtenir_stats_joueur chemin nom m
     = Parties parties meilleur_score meilleur_pourcentage moyenne ->
     parties = compter_occurrences_joueur chemin nom m /\
     0 < parties /\
     (forall s, s ∈ charger_tous chemin m -> meme_joueur nom s ->
                points s <= meilleur_score) /\
     exists l1 s l2,
       filter (meme_joueur nom) (charger_tous chemin m) = l1 ++ s :: l2 /\
       points s = meilleur_score /\
       pourcent s = meilleur_pourcentage /\
       (forall y, y ∈ l1 -> points y < meilleur_score)).
Proof.
  unfold Stockage.obtenir_stats_joueur, compter_occurrences_joueur.
  rewrite sum_uns.
  destruct (filter (meme_joueur nom) (charger_tous chemin m)) as [|x l] eqn:E.
  - split; [split; reflexivity|discriminate].
  - split; [split; [discriminate|cbn; lia]|].
    intros parties ms mp moy [= <- <- <- <-].
    destruct (max_score_premier x l) as (l1 & l2 & Hd & H1 & H2).
    split; [reflexivity|]. split; [cbn; lia|]. split.
    + intros s Hs Hj.
      assert (Hin : s ∈ x :: l) by (rewrite <- E; now apply list_elem_of_filter).
      rewrite Hd in Hin. apply elem_of_app in Hin as [Hin|Hin].
      * specialize (H1 s Hin). lia.
      * apply elem_of_cons in Hin as [->|Hin]; [lia|now apply H2].
    + exists l1, (max_score x l), l2. auto.
Qed.

End ProprietesStatistiques.

Lemma stats_joueur_temoin :
  exists ms mp moy,
    Stockage.obtenir_stats_joueur (fun _ => 0%Q) "scores.json" "ANA" monde_classement
    = Stockage.Parties 1 ms mp moy /\
    1 = Stockage.compter_occurrences_joueur "scores.json" "ANA" monde_classement.
Proof.
  eexists _, _, _. split; [reflexivity|].
  exact (proj1 (proj2 (stats_joueur (fun _ => 0%Q) "scores.json" "ANA"
                         monde_classement) _ _ _ _ eq_refl)).
Defined.


Section ProprietesStabilite.

Import Stockage.

Implicit Types (a b x y : Entree) (l : list Entree).

Lemma inserer_ex_aequo a x l :
  filter (fun b => cle_lt (cle_tri b) (cle_tri a) = false /\
                   cle_lt (cle_tri a) (cle_tri b) = false) (inserer x l)
  = filter (fun b => cle_lt (cle_tri b) (cle_tri a) = false /\
                     cle_lt (cle_tri a) (cle_tri b) = false) (x :: l).
Proof.
  induction l as [|y l IH]; [reflexivity|]. cbn [inserer].
  destruct (cle_lt (cle_tri y) (cle_tri x)) eqn:E; [|reflexivity].
  rewrite filter_cons, IH, !filter_cons.
  repeat case_decide; try reflexivity.
  exfalso.
  match goal with
  | Hx : cle_lt (cle_tri x) _ = false /\ _ |- _ => destruct Hx as [Hx1 Hx2]
  end.
  match goal with
  | Hy : cle_lt (cle_tri y) _ = false /\ _ |- _ => destruct Hy as [Hy1 Hy2]
  end.
  apply cle_lt_avant in Hx1, Hx2, Hy1, Hy2.
  pose proof (avant_trans _ _ _ Hx2 Hy1) as H.
  apply cle_lt_avant in H. congruence.
Qed.

Lemma trier_ex_aequo a l :
  filter (fun b => cle_lt (cle_tri b) (cle_tri a) = false /\
                   cle_lt (cle_tri a) (cle_tri b) = false) (trier l)
  = filter (fun b => cle_lt (cle_tri b) (cle_tri a) = false /\
                     cle_lt (cle_tri a) (cle_tri b) = false) l.
Proof.
  induction l as [|x l IH]; [reflexivity|]. cbn [trier].
  now rewrite inserer_ex_aequo, !filter_cons, IH.
Qed.

(** X17. The ranking keeps the order of the log between the entries that
    the key does not separate: for any entry [a], the entries of [top_n]
    whose key neither precedes nor follows the key of [a] are the first
    of those of the selection, in the order in which the log holds them. *)
Theorem top_n_stable chemin n theme m a :
  filter (fun b => cle_lt (cle_tri b) (cle_tri a) = false /\
                   cle_lt (cle_tri a) (cle_tri b) = false)
         (top_n chemin n theme m)
  `prefix_of`
  filter (fun b => cle_lt (cle_tri b) (cle_tri a) = false /\
                   cle_lt (cle_tri a) (cle_tri b) = false)
         (selection chemin theme m).
Proof.
  rewrite top_n_selection, <- (trier_ex_aequo a (selection chemin theme m)).
  set (l := trier _). set (P := fun b => _ /\ _).
  assert (H : forall k, filter P (take k l) `prefix_of` filter P l).
  { intros k. exists (filter P (drop k l)).
    now rewrite <- filter_app, take_drop. }
  unfold tranche. destruct (0 <=? n); apply H.
Qed.

End ProprietesStabilite.

(* ===================================================================== *)
(** * Properties of the animated label and of the player's name *)
(* ===================================================================== *)

Section ProprietesTypewriter.

Import Typewriter.

Implicit Types (s : Etat) (ts : list string) (cible : string).

Lemma longueur_liste_ascii cible :
  length (list_ascii_of_string cible) = String.length cible.
Proof. induction cible as [|c cible IH]; cbn; [reflexivity|now rewrite IH]. Qed.

Lemma debut_zero cible : debut cible 0 = "".
Proof. reflexivity. Qed.

Lemma debut_entier cible : debut cible (Z.of_nat (String.length cible)) = cible.
Proof.
  unfold debut. rewrite tranche_entiere by (rewrite longueur_liste_ascii; lia).
  apply string_of_list_ascii_of_string.
Qed.

Lemma element_present ts i cible :
  ts !! Z.to_nat i = Some cible -> element ts i = Retour cible.
Proof. intros H. unfold element. now rewrite H. Qed.

(** One tick keeps the label coherent, and raises nothing. *)
Lemma _animer_coherent ts s :
  coherent ts s -> exists s', _animer s = Retour s' /\ coherent ts s'.
Proof.
  intros (Ht & cible & Hc & Hi & Hp & Ha & Hf). unfold _animer.
  destruct (est_en_pause s).
  - eexists. split; [reflexivity|]. split; [exact Ht|].
    exists cible. cbn. auto.
  - rewrite Ht, (element_present ts _ cible Hc). cbn [lier].
    destruct (est_en_ecriture s).
    + destruct (Z.ltb_spec (position_caractere s) (Z.of_nat (String.length cible))).
      * eexists. split; [reflexivity|]. split; [exact Ht|].
        exists cible. cbn. repeat split; auto; lia.
      * eexists. split; [reflexivity|]. split; [exact Ht|].
        exists cible. cbn. auto.
    + destruct (Z.ltb_spec 0 (position_caractere s)).
      * eexists. split; [reflexivity|]. split; [exact Ht|].
        exists cible. cbn. repeat split; auto; lia.
      * eexists. split; [reflexivity|]. split; [exact Ht|].
        cbn [index_texte_actuel position_caractere texte_actuel texte_affiche avec].
        pose proof (Z.mod_pos_bound (index_texte_actuel s + 1)
                      (Z.of_nat (length ts)) ltac:(lia)) as Hm.
        destruct (lookup_lt_is_Some_2 ts
          (Z.to_nat ((index_texte_actuel s + 1) mod Z.of_nat (length ts)))
          ltac:(lia)) as [suivant Hs].
        exists suivant. split; [exact Hs|]. split; [exact Hm|].
        split; [lia|]. split; [|exact Hf].
        rewrite Ha. replace (position_caractere s) with 0 by lia. reflexivity.
Qed.

(** X18. With at least one text, the animation never raises and the
    label stays coherent: after any number of ticks the index points at
    one of the texts, the position lies within it, and the label shows
    the beginning of that text up to the position. With no text, the
    first tick raises [IndexError]. *)
Theorem animation_coherente :
  (forall ts n,
     ts <> [] ->
     exists s, ticks n (init ts) = Retour s /\ coherent ts s) /\
  _animer (init []) = Leve IndexError.
Proof.
  split; [|reflexivity].
  intros ts n Hne.
  assert (H0 : coherent ts (init ts)).
  { split; [reflexivity|]. destruct ts as [|t0 ts']; [congruence|].
    exists t0. cbn. repeat split; try lia. }
  revert H0. generalize (init ts) as s.
  induction n as [|n IH]; intros s Hs; [now exists s|].
  cbn [ticks]. destruct (_animer_coherent ts s Hs) as (s' & -> & Hs').
  cbn [lier]. now apply IH.
Qed.

Lemma animation_coherente_temoin :
  ["Bienvenue"; "Quiz"] <> [] /\
  exists s, ticks 30 (init ["Bienvenue"; "Quiz"]) = Retour s /\
            coherent ["Bienvenue"; "Quiz"] s.
Proof.
  split; [discriminate|].
  exact (proj1 animation_coherente ["Bienvenue"; "Quiz"] 30%nat ltac:(discriminate)).
Defined.

Lemma ticks_plus a b s :
  ticks (a + b) s = soit s' <- ticks a s dans ticks b s'.
Proof.
  revert s. induction a as [|a IH]; intros s; [reflexivity|].
  cbn [Nat.add ticks]. destruct (_animer s) as [s'|e]; cbn [lier]; [apply IH|reflexivity].
Qed.

(** The writing phase: [k] ticks write [k] more characters. *)
Lemma ticks_ecriture s0 i cible iv k p :
  textes s0 !! Z.to_nat i = Some cible ->
  (p + k <= String.length cible)%nat ->
  ticks k (avec s0 i (Z.of_nat p) true false
             (debut cible (Z.of_nat p)) (debut cible (Z.of_nat p)) iv)
  = Retour (avec s0 i (Z.of_nat (p + k)) true false
              (debut cible (Z.of_nat (p + k))) (debut cible (Z.of_nat (p + k))) iv).
Proof.
  intros Hc. revert p. induction k as [|k IH]; intros p Hk.
  - now rewrite Nat.add_0_r.
  - cbn [ticks]. unfold _animer at 1.
    cbn [est_en_pause est_en_ecriture textes index_texte_actuel
         position_caractere avec intervalle].
    rewrite (element_present _ _ _ Hc). cbn [lier].
    replace (Z.of_nat p <? Z.of_nat (String.length cible)) with true by lia.
    replace (Z.of_nat p + 1) with (Z.of_nat (S p)) by lia.
    cbn [lier]. fold (avec s0 i (Z.of_nat (S p)) true false
      (debut cible (Z.of_nat (S p))) (debut cible (Z.of_nat (S p))) iv).
    rewrite <- Nat.add_succ_comm. apply (IH (S p)). lia.
Qed.

(** The erasing phase: [k] ticks erase [k] characters. *)
Lemma ticks_effacement s0 i cible iv k p :
  textes s0 !! Z.to_nat i = Some cible ->
  ticks k (avec s0 i (Z.of_nat (p + k)) false false
             (debut cible (Z.of_nat (p + k))) (debut cible (Z.of_nat (p + k))) iv)
  = Retour (avec s0 i (Z.of_nat p) false false
              (debut cible (Z.of_nat p)) (debut cible (Z.of_nat p)) iv).
Proof.
  intros Hc. induction k as [|k IH].
  - now rewrite Nat.add_0_r.
  - cbn [ticks]. unfold _animer at 1.
    cbn [est_en_pause est_en_ecriture textes index_texte_actuel
         position_caractere avec intervalle].
    rewrite (element_present _ _ _ Hc). cbn [lier].
    destruct (Z.ltb_spec 0 (Z.of_nat (p + S k))) as [_|Hneg]; [|lia].
    replace (Z.of_nat (p + S k) - 1) with (Z.of_nat (p + k)) by lia.
    cbn [lier]. exact IH.
Qed.

(** X19. One turn of the animation. From a label about to write its
    text number [i], the first ticks show the text one more character at
    a time, until it is whole; and after twice the length of the text
    plus three ticks (writing, the pause, erasing, the change of text)
    the label is about to write the next text, the first one after the
    last, with the timer back to the writing speed. *)
Theorem animation_cycle s i cible :
  au_debut i s ->
  0 <= i ->
  textes s !! Z.to_nat i = Some cible ->
  (forall k, (k <= String.length cible)%nat ->
     exists s', ticks k s = Retour s' /\
                texte_affiche s' = debut cible (Z.of_nat k) /\
                index_texte_actuel s' = i) /\
  (exists s', ticks (String.length cible) s = Retour s' /\ texte_affiche s' = cible) /\
  (exists s',
     ticks (2 * String.length cible + 3) s = Retour s' /\
     au_debut ((i + 1) mod Z.of_nat (length (textes s))) s' /\
     textes s' = textes s /\
     intervalle s' = vitesse_ecriture s).
Proof.
  intros (H1 & H2 & H3 & H4 & H5 & H6) Hi Hc.
  assert (Hs : s = avec s i (Z.of_nat 0) true false
                     (debut cible (Z.of_nat 0)) (debut cible (Z.of_nat 0))
                     (intervalle s)).
  { destruct s. cbn in *. subst. reflexivity. }
  assert (Hecr : forall k, (k <= String.length cible)%nat ->
            ticks k s = Retour (avec s i (Z.of_nat k) true false
              (debut cible (Z.of_nat k)) (debut cible (Z.of_nat k)) (intervalle s))).
  { intros k Hk. rewrite Hs at 1.
    exact (ticks_ecriture s i cible (intervalle s) k 0 Hc ltac:(lia)). }
  split; [|split].
  - intros k Hk. eexists. split; [exact (Hecr k Hk)|]. split; reflexivity.
  - eexists. split; [exact (Hecr _ (Nat.le_refl _))|].
    cbn [texte_affiche avec]. apply debut_entier.
  - set (n := String.length cible).
    replace (2 * n + 3)%nat with (n + (1 + (1 + (n + 1))))%nat by lia.
    rewrite ticks_plus, (Hecr n (Nat.le_refl _)). cbn [lier].
    rewrite ticks_plus. cbn [ticks]. unfold _animer at 1.
    cbn [est_en_pause est_en_ecriture textes index_texte_actuel
         position_caractere avec intervalle duree_pause].
    rewrite (element_present _ _ _ Hc). cbn [lier].
    replace (Z.of_nat n <? Z.of_nat (String.length cible)) with false by (subst n; lia).
    cbn [lier].
    rewrite ticks_plus. cbn [ticks]. unfold _animer at 1.
    cbn [est_en_pause est_en_ecriture textes index_texte_actuel position_caractere
         avec intervalle vitesse_effacement texte_actuel texte_affiche lier].
    rewrite ticks_plus.
    pose proof (ticks_effacement s i cible (vitesse_effacement s) n 0 Hc) as He.
    rewrite Nat.add_0_l in He.
    match goal with
    | |- context [ticks n ?st] =>
        replace (ticks n st) with
          (Retour (avec s i (Z.of_nat 0) false false (debut cible (Z.of_nat 0))
                     (debut cible (Z.of_nat 0)) (vitesse_effacement s)))
          by (symmetry; exact He)
    end.
    cbn [lier ticks]. unfold _animer.
    cbn [est_en_pause est_en_ecriture textes index_texte_actuel position_caractere
         avec intervalle vitesse_ecriture texte_actuel texte_affiche].
    rewrite (element_present _ _ _ Hc). cbn [lier Z.of_nat Z.ltb Z.compare].
    eexists. split; [reflexivity|].
    split; [|split; reflexivity].
    repeat split.
Qed.

Lemma animation_cycle_temoin :
  au_debut 0 (init ["Bienvenue"; "Quiz"]) /\
  exists s',
    ticks (2 * String.length "Bienvenue" + 3) (init ["Bienvenue"; "Quiz"]) = Retour s' /\
    au_debut ((0 + 1) mod Z.of_nat (length (textes (init ["Bienvenue"; "Quiz"])))) s'.
Proof.
  assert (H : au_debut 0 (init ["Bienvenue"; "Quiz"])) by (repeat split).
  split; [exact H|].
  destruct (proj2 (proj2 (animation_cycle (init ["Bienvenue"; "Quiz"]) 0 "Bienvenue"
              H ltac:(lia) eq_refl))) as (s' & H1 & H2 & _).
  exists s'. split; [exact H1|exact H2].
Defined.

End ProprietesTypewriter.

Section ProprietesNom.

Lemma rstrip_idempotent (s : string) : rstrip (rstrip s) = rstrip s.
Proof.
  induction s as [|c s IH]; [reflexivity|]. cbn [rstrip].
  destruct (rstrip s) as [|d r] eqn:E.
  - destruct (est_espace c) eqn:Ec; [reflexivity|]. cbn. now rewrite Ec.
  - cbn [rstrip]. cbn [rstrip] in IH. rewrite IH. reflexivity.
Qed.

Lemma lstrip_tete (s : string) :
  lstrip s = "" \/ exists c r, lstrip s = String c r /\ est_espace c = false.
Proof.
  induction s as [|c s IH]; [now left|]. cbn [lstrip].
  destruct (est_espace c) eqn:Ec; [exact IH|]. right. eauto.
Qed.

Lemma rstrip_tete (c : ascii) (s : string) :
  est_espace c = false -> exists r, rstrip (String c s) = String c r.
Proof.
  intros Ec. cbn [rstrip]. destruct (rstrip s); [|eauto].
  rewrite Ec. eauto.
Qed.

Lemma strip_idempotent (s : string) : strip (strip s) = strip s.
Proof.
  unfold strip.
  destruct (lstrip_tete s) as [->|(c & r & -> & Ec)]; [reflexivity|].
  destruct (rstrip_tete c r Ec) as [r' E].
  rewrite E at 1. cbn [lstrip]. rewrite Ec, <- E. apply rstrip_idempotent.
Qed.

(** X20. The name of the player kept by the menu is never empty and has
    no blank at either end. It is the entered name without its
    surrounding blanks when the dialog was accepted with a name that is
    not blank, and ["Joueur"] otherwise. *)
Theorem nom_joueur_propre (nom : string) (ok : bool) :
  Menu.nom_joueur nom ok <> "" /\
  strip (Menu.nom_joueur nom ok) = Menu.nom_joueur nom ok /\
  (ok = true -> strip nom <> "" -> Menu.nom_joueur nom ok = strip nom) /\
  (ok = false \/ strip nom = "" -> Menu.nom_joueur nom ok = "Joueur").
Proof.
  unfold Menu.nom_joueur.
  destruct ok; cbn [negb orb].
  - case_bool_decide as E.
    + repeat split; try discriminate; try reflexivity. intros _ H. contradiction.
    + repeat split; try exact E; try apply strip_idempotent.
      intros [H|H]; [discriminate|contradiction].
  - repeat split; try discriminate; try reflexivity.
Qed.

Lemma nom_joueur_propre_temoin :
  true = true /\ strip "  Ana  " <> "" /\ Menu.nom_joueur "  Ana  " true = strip "  Ana  ".
Proof.
  assert (H : strip "  Ana  " <> "") by (vm_compute; discriminate).
  split; [reflexivity|]. split; [exact H|].
  exact (proj1 (proj2 (proj2 (nom_joueur_propre "  Ana  " true))) eq_refl H).
Defined.

End ProprietesNom.
